(** * pypicloud.util: a shallow embedding and its properties

    The module [pypicloud/util.py] is a collection of helpers: filename
    parsing, PEP 503 name normalisation, a scraping locator that prefers
    wheels, a settings lookup with deprecated aliases, timestamp conversion
    and a retry decorator.  Python (byte) strings are modelled by [string],
    dictionaries by [gmap], exceptions by an explicit result type and
    objects with mutable attributes by records threaded through calls.
    Floats are binary64 numbers given by mantissa and exponent, with
    their values in [Q]; a datetime is given by its count of microseconds
    since the epoch. *)

From Stdlib Require Import ZArith QArith Qabs Qround Qpower Lqa.
From Stdlib Require Import Ascii String List Bool Lia.
From stdpp Require Import base decidable option list gmap strings.

Local Close Scope Q_scope.

Local Open Scope string_scope.

(** ** Python values shared by the module *)

(** Exceptions raised by the code of the module itself and by the
    operations of the runtime it calls. *)
Inductive exn : Type :=
  | ValueError (msg : string)
  | AssertionError
  | TypeError
  | OverflowError
  | ZeroDivisionError.

(** A call either returns or raises. *)
Inductive result (A : Type) : Type :=
  | Ok (a : A)
  | Err (e : exn).
Arguments Ok {A} a.
Arguments Err {A} e.

(** ** Byte strings *)

Module PyStr.

Definition to_list : string -> list ascii := list_ascii_of_string.
Definition of_list : list ascii -> string := string_of_list_ascii.

(** [s.endswith(suf)] *)
Definition endswith (s suf : string) : bool :=
  bool_decide (to_list suf `suffix_of` to_list s).

(** [s[:-n]] for [n = len(ext)]: Python reads [-0] as [0], so the slice
    is empty when [n] is zero; otherwise the last [n] bytes are cut. *)
Definition slice_to_neg (s : string) (n : nat) : string :=
  match n with
  | O => ""
  | S _ => of_list (take (String.length s - n) (to_list s))
  end.

(** [s[:n]] and [s[n:]] for a non-negative [n]. *)
Definition slice_to (s : string) (n : nat) : string :=
  of_list (take n (to_list s)).
Definition slice_from (s : string) (n : nat) : string :=
  of_list (drop n (to_list s)).

(** [sub in s] *)
Fixpoint contains (sub s : string) : bool :=
  String.prefix sub s ||
  match s with
  | EmptyString => false
  | String _ s' => contains sub s'
  end.

(** [str.lower()] of a byte string: only [A]..[Z] change. *)
Definition is_upper (c : ascii) : bool :=
  let n := nat_of_ascii c in (65 <=? n)%nat && (n <=? 90)%nat.
Definition lower_ascii (c : ascii) : ascii :=
  if is_upper c then ascii_of_nat (nat_of_ascii c + 32) else c.
Fixpoint lower (s : string) : string :=
  match s with
  | EmptyString => EmptyString
  | String c s' => String (lower_ascii c) (lower s')
  end.

End PyStr.

(** ** normalize_name *)

(** The character class [[-_.]]. *)
Definition is_sep (c : ascii) : bool :=
  (c =? "-")%char || (c =? "_")%char || (c =? ".")%char.

(** [re.sub(r"[-_.]+", "-", name)]: a left-to-right scan.  [re_sub] is the
    scanner between matches; on a separator a match of [[-_.]+] starts and
    one ["-"] is emitted, and [in_run] consumes the rest of the greedy
    match. *)
Fixpoint re_sub (s : string) : string :=
  match s with
  | EmptyString => EmptyString
  | String c s' =>
      if is_sep c then String "-" (in_run s') else String c (re_sub s')
  end
with in_run (s : string) : string :=
  match s with
  | EmptyString => EmptyString
  | String c s' =>
      if is_sep c then in_run s' else String c (re_sub s')
  end.

Definition normalize_name (name : string) : string :=
  PyStr.lower (re_sub name).


(** ** parse_filename *)

(** [ALL_EXTENSIONS] and [split_filename] come from distlib, outside this
    module: they are parameters of the embedding.  [split_filename] returns
    [None] or a triple (name, version, python version). *)
Section ParseFilename.

Variable ALL_EXTENSIONS : list string.
Variable split_filename :
  string -> option string -> option (string * string * option string).

(** The [for ext in ALL_EXTENSIONS] loop.  The result is the pair
    [(parsed_name, version)] the loop leaves behind, [None] when [version]
    is still [None] at its exit.  Both branches under a matching suffix end
    in [break]: extensions after the first matching one are not visited. *)
Fixpoint ext_loop (exts : list string) (filename : string)
    (name : option string) : option (string * string) :=
  match exts with
  | [] => None
  | ext :: exts' =>
      if PyStr.endswith filename ext then
        let trimmed := PyStr.slice_to_neg filename (String.length ext) in
        match split_filename trimmed name with
        | None => None
        | Some (parsed_name, version, _) => Some (parsed_name, version)
        end
      else ext_loop exts' filename name
  end.

Definition cannot_parse (filename : string) : exn :=
  ValueError ("Cannot parse package file '" ++ filename ++ "'").

Definition parse_filename (filename : string) (name : option string)
    : result (string * string) :=
  match ext_loop ALL_EXTENSIONS filename name with
  | None => Err (cannot_parse filename)
  | Some (parsed_name, version) =>
      let name' := match name with
                   | None => parsed_name
                   | Some hint => hint
                   end in
      Ok (normalize_name name', version)
  end.

(** The first extension of the list that is a suffix of the filename. *)
Definition matched_extension (filename : string) : option string :=
  List.find (PyStr.endswith filename) ALL_EXTENSIONS.

(** The name and version the split produces for extension [ext]. *)
Definition split_for (filename : string) (name : option string)
    (ext : string) : option (string * string) :=
  match split_filename
          (PyStr.slice_to_neg filename (String.length ext)) name with
  | None => None
  | Some (parsed_name, version, _) => Some (parsed_name, version)
  end.

(** The policy as the specification words it, for comparison with
    [parse_filename]: the first extension that is a suffix of the filename
    and whose split succeeds wins, and the returned name is the normalised
    name component of that split. *)
Fixpoint spec_ext_loop (exts : list string) (filename : string)
    (name : option string) : option (string * string) :=
  match exts with
  | [] => None
  | ext :: exts' =>
      if PyStr.endswith filename ext then
        match split_for filename name ext with
        | Some r => Some r
        | None => spec_ext_loop exts' filename name
        end
      else spec_ext_loop exts' filename name
  end.

Definition spec_parse_filename (filename : string) (name : option string)
    : result (string * string) :=
  match spec_ext_loop ALL_EXTENSIONS filename name with
  | None => Err (cannot_parse filename)
  | Some (parsed_name, version) => Ok (normalize_name parsed_name, version)
  end.

End ParseFilename.

(** ** distlib, as far as [parse_filename] uses it

    A model of the two things the module imports from distlib for filename
    parsing: the extension tuples of [distlib.locators.Locator] and
    [distlib.util.split_filename] on byte strings. *)
Module Distlib.

Definition source_extensions : list string :=
  [".tar.gz"; ".tar.bz2"; ".tar"; ".zip"; ".tgz"; ".tbz"].
Definition binary_extensions : list string :=
  [".egg"; ".exe"; ".whl"].

(** A small backtracking matcher for the regular expressions involved.
    [rx_match r s k] matches [r] at the start of [s] and hands the rest of
    the string to the continuation [k]; a [None] from [k] makes the matcher
    backtrack.  [Star] and [Opt] are greedy. *)
Inductive regex : Type :=
  | Class (p : ascii -> bool)
  | Cat (r1 r2 : regex)
  | Star (r : regex)
  | Opt (r : regex).

Fixpoint rx_match {A : Type} (r : regex) (s : string)
    (k : string -> option A) {struct r} : option A :=
  match r with
  | Class p =>
      match s with
      | String c s' => if p c then k s' else None
      | EmptyString => None
      end
  | Cat r1 r2 => rx_match r1 s (fun s' => rx_match r2 s' k)
  | Opt r1 =>
      match rx_match r1 s k with
      | Some a => Some a
      | None => k s
      end
  | Star r1 =>
      (fix star (fuel : nat) (s : string) {struct fuel} : option A :=
         match fuel with
         | O => k s
         | S fuel' =>
             match rx_match r1 s
                     (fun s' =>
                        if (String.length s' <? String.length s)%nat
                        then star fuel' s' else None) with
             | Some a => Some a
             | None => k s
             end
         end) (String.length s) s
  end.

Definition Plus (r : regex) : regex := Cat r (Star r).

Definition in_range (lo hi : nat) (c : ascii) : bool :=
  let n := nat_of_ascii c in (lo <=? n)%nat && (n <=? hi)%nat.
Definition is_digit (c : ascii) : bool := in_range 48 57 c.
Definition is_alpha (c : ascii) : bool := in_range 65 90 c || in_range 97 122 c.
(** [\w] on byte strings (no LOCALE or UNICODE flag). *)
Definition is_word (c : ascii) : bool :=
  is_alpha c || is_digit c || (c =? "_")%char.

(** [urllib.unquote]: [%XX] with two hexadecimal digits becomes a byte,
    any other [%] stays. *)
Definition hex_val (c : ascii) : option nat :=
  let n := nat_of_ascii c in
  if is_digit c then Some (n - 48)
  else if in_range 65 70 c then Some (n - 55)
  else if in_range 97 102 c then Some (n - 87)
  else None.

Fixpoint unquote (s : string) : string :=
  match s with
  | EmptyString => EmptyString
  | String c s' =>
      if (c =? "%")%char then
        match s' with
        | String a (String b rest) =>
            match hex_val a, hex_val b with
            | Some x, Some y => String (ascii_of_nat (16 * x + y)) (unquote rest)
            | _, _ => String c (unquote s')
            end
        | _ => String c (unquote s')
        end
      else String c (unquote s')
  end.

(** [.replace(' ', '-')] *)
Fixpoint replace_space (s : string) : string :=
  match s with
  | EmptyString => EmptyString
  | String c s' =>
      String (if (c =? " ")%char then "-"%char else c) (replace_space s')
  end.

(** The text a successful match consumed, given what it left. *)
Definition consumed (s rest : string) : string :=
  PyStr.slice_to s (String.length s - String.length rest).

(** [PYTHON_VERSION = re.compile(r'-py(\d\.?\d?)')], matched at the start
    of [s]: group 1. *)
Definition pyver_group : regex :=
  Cat (Class is_digit)
      (Cat (Opt (Class (fun c => (c =? ".")%char))) (Opt (Class is_digit))).

Definition PYTHON_VERSION_at (s : string) : option string :=
  match s with
  | String "-" (String "p" (String "y" rest)) =>
      rx_match pyver_group rest (fun r => Some (consumed rest r))
  | _ => None
  end.

(** [PYTHON_VERSION.search]: the leftmost match, as (start, group 1). *)
Fixpoint PYTHON_VERSION_search (s : string) (start : nat)
    : option (nat * string) :=
  match PYTHON_VERSION_at s with
  | Some g => Some (start, g)
  | None =>
      match s with
      | EmptyString => None
      | String _ s' => PYTHON_VERSION_search s' (S start)
      end
  end.

(** [PROJECT_NAME_AND_VERSION], compiled with [re.I] and matched at the
    start of [s]: groups 1 and 3.  Group 1 is [[a-z0-9_]+] followed by any
    number of pieces, each one of [.-], one of [[a-z_]] and a run of
    [[a-z0-9_]]; a ['-'] follows; group 3 is [[a-z0-9_.+-]+]. *)
Definition is_dot_dash (c : ascii) : bool := (c =? ".")%char || (c =? "-")%char.
Definition is_alpha_ (c : ascii) : bool := is_alpha c || (c =? "_")%char.
Definition is_version_char (c : ascii) : bool :=
  is_word c || (c =? ".")%char || (c =? "+")%char || (c =? "-")%char.

Definition name_group : regex :=
  Cat (Plus (Class is_word))
      (Star (Cat (Class is_dot_dash)
                 (Cat (Class is_alpha_) (Star (Class is_word))))).
Definition version_group : regex := Plus (Class is_version_char).

Definition PROJECT_NAME_AND_VERSION_match (s : string)
    : option (string * string) :=
  rx_match name_group s (fun r1 =>
    match r1 with
    | String "-" r2 =>
        rx_match version_group r2 (fun r3 =>
          Some (consumed s r1, consumed r2 r3))
    | _ => None
    end).

(** [re.match(re.escape(project_name) + r'\b', filename)]: the literal
    prefix followed by a word boundary; the result is [m.end()]. *)
Definition nth_is_word (s : string) (i : nat) : bool :=
  match String.get i s with
  | Some c => is_word c
  | None => false
  end.

Definition match_project_name (project_name filename : string) : option nat :=
  let n := String.length project_name in
  if String.prefix project_name filename
     && xorb (match n with O => false | S m => nth_is_word filename m end)
             (nth_is_word filename n)
  then Some n else None.

Definition split_filename (filename : string) (project_name : option string)
    : option (string * string * option string) :=
  let filename := replace_space (unquote filename) in
  let '(filename, pyver) :=
    match PYTHON_VERSION_search filename 0 with
    | Some (start, g) => (PyStr.slice_to filename start, Some g)
    | None => (filename, None)
    end in
  let result :=
    match project_name with
    | Some pn =>
        if negb (String.length pn =? 0)%nat
           && (String.length pn + 1 <? String.length filename)%nat
        then
          match match_project_name pn filename with
          | Some n =>
              Some (PyStr.slice_to filename n,
                    PyStr.slice_from filename (n + 1), pyver)
          | None => None
          end
        else None
    | None => None
    end in
  match result with
  | Some r => Some r
  | None =>
      match PROJECT_NAME_AND_VERSION_match filename with
      | Some (g1, g3) => Some (g1, g3, pyver)
      | None => None
      end
  end.

End Distlib.

(** [ALL_EXTENSIONS = Locator.source_extensions + Locator.binary_extensions] *)
Definition ALL_EXTENSIONS : list string :=
  Distlib.source_extensions ++ Distlib.binary_extensions.

(** [parse_filename] as the module runs it, over distlib. *)
Definition parse_filename_distlib : string -> option string -> result (string * string) :=
  parse_filename ALL_EXTENSIONS Distlib.split_filename.

(** ** BetterScrapingLocator *)

(** The fields of [urlparse]'s result that [score_url] reads. *)
Record ParseResult : Type := {
  scheme : string;
  netloc : string;
  path : string;
}.

(** [posixpath.basename]: [i = p.rfind('/') + 1; return p[i:]]. *)
Fixpoint rfind (c : ascii) (s : string) : Z :=
  match s with
  | EmptyString => (-1)%Z
  | String d s' =>
      let r := rfind c s' in
      if (0 <=? r)%Z then (r + 1)%Z
      else if (d =? c)%char then 0%Z else (-1)%Z
  end.

Definition basename (p : string) : string :=
  PyStr.slice_from p (Z.to_nat (rfind "/" p + 1)).

(** The tuple [score_url] returns. *)
Definition score : Type := (bool * bool * bool * string)%type.

(** Python compares tuples element by element: the first pair of elements
    that differ decides.  [False < True]; byte strings compare
    lexicographically. *)
Definition cmp_bool (a b : bool) : comparison :=
  match a, b with
  | false, true => Lt
  | true, false => Gt
  | _, _ => Eq
  end.

Definition cmp_then (c : comparison) (rest : comparison) : comparison :=
  match c with
  | Eq => rest
  | _ => c
  end.

Definition cmp_score (s1 s2 : score) : comparison :=
  let '(a1, b1, c1, f1) := s1 in
  let '(a2, b2, c2, f2) := s2 in
  cmp_then (cmp_bool a1 a2)
    (cmp_then (cmp_bool b1 b2)
       (cmp_then (cmp_bool c1 c2) (String.compare f1 f2))).

(** [s1 > s2], the test of distlib's [prefer_url]. *)
Definition score_gt (s1 s2 : score) : bool :=
  match cmp_score s1 s2 with
  | Gt => true
  | _ => false
  end.

(** The locator object: the attribute the subclass adds, and the state of
    the [SimpleScrapingLocator] it extends. *)
Record BetterScrapingLocator (Base : Type) : Type := {
  prefer_wheel : bool;
  base : Base;
}.
Arguments prefer_wheel {Base} _.
Arguments base {Base} _.

Section Locator.

(** The state of the superclass, requirements and distributions are
    distlib's; [urlparse] is the standard library's. *)
Context {Base Req Dist : Type}.
Variable urlparse : string -> ParseResult.

(** [SimpleScrapingLocator.locate], which ranks URLs with the [score_url]
    of the object it is called on and may update the superclass state. *)
Variable super_locate :
  (string -> score) -> Base -> Req -> bool -> option Dist * Base.

(** A fresh object reads the class attribute [prefer_wheel = True]. *)
Definition new_locator (b : Base) : BetterScrapingLocator Base :=
  {| prefer_wheel := true; base := b |}.

Definition score_url (self : BetterScrapingLocator Base) (url : string)
    : score :=
  let t := urlparse url in
  let filename := basename (path t) in
  (String.eqb (scheme t) "https",
   negb (xorb (prefer_wheel self) (PyStr.endswith filename ".whl")),
   PyStr.contains "pypi.python.org" (netloc t),
   filename).

(** [locate] first assigns [self.prefer_wheel = wheel], then delegates.
    The result is the value returned and the object after the call. *)
Definition locate (self : BetterScrapingLocator Base) (requirement : Req)
    (prereleases wheel : bool)
    : option Dist * BetterScrapingLocator Base :=
  let self1 := {| prefer_wheel := wheel; base := base self |} in
  let '(found, b) :=
    super_locate (score_url self1) (base self1) requirement prereleases in
  (found, {| prefer_wheel := prefer_wheel self1; base := b |}).

End Locator.

(** A model of [urlparse.urlparse] on byte strings, used to evaluate
    [score_url] on concrete URLs: the scheme before the first [':'], the
    network location after ["//"] up to the first of ['/'], ['?'], ['#'],
    and the path, without fragment, query and parameters.  The check of
    the brackets of an IPv6 address is left out. *)
Module Urlparse.

Fixpoint find_char (c : ascii) (s : string) : option nat :=
  match s with
  | EmptyString => None
  | String d s' =>
      if (d =? c)%char then Some 0%nat
      else match find_char c s' with
           | Some i => Some (S i)
           | None => None
           end
  end.

Fixpoint all_chars (p : ascii -> bool) (s : string) : bool :=
  match s with
  | EmptyString => true
  | String c s' => p c && all_chars p s'
  end.

Definition is_scheme_char (c : ascii) : bool :=
  Distlib.is_alpha c || Distlib.is_digit c
  || (c =? "+")%char || (c =? "-")%char || (c =? ".")%char.

Definition uses_params : list string :=
  ["ftp"; "hdl"; "prospero"; "http"; "imap"; "https"; "shttp"; "rtsp";
   "rtspu"; "sip"; "sips"; "mms"; ""; "sftp"; "tel"].

(** The index of the first of ['/'], ['?'], ['#']. *)
Fixpoint find_delim (s : string) : option nat :=
  match s with
  | EmptyString => None
  | String d s' =>
      if (d =? "/")%char || (d =? "?")%char || (d =? "#")%char
      then Some 0%nat
      else match find_delim s' with
           | Some i => Some (S i)
           | None => None
           end
  end.

(** [s.split(c, 1)[0]] *)
Definition cut_at (c : ascii) (s : string) : string :=
  match find_char c s with
  | Some i => PyStr.slice_to s i
  | None => s
  end.

(** The scheme and what follows it.  A colon in first position, a
    character before it that no scheme has, or only digits after it (a
    port number) mean that there is no scheme. *)
Definition split_scheme (url : string) : string * string :=
  match find_char ":" url with
  | Some (S i) =>
      let sch := PyStr.slice_to url (S i) in
      let rest := PyStr.slice_from url (S (S i)) in
      if String.eqb sch "http" then (sch, rest)
      else if all_chars is_scheme_char sch
              && (String.eqb rest "" || negb (all_chars Distlib.is_digit rest))
      then (PyStr.lower sch, rest)
      else ("", url)
  | _ => ("", url)
  end.

(** [_splitparams]: the parameters start at the first [';'] of the last
    segment of the path. *)
Definition splitparams (url : string) : string :=
  let r := rfind "/" url in
  if (0 <=? r)%Z then
    match find_char ";" (PyStr.slice_from url (Z.to_nat r)) with
    | Some i => PyStr.slice_to url (Z.to_nat r + i)
    | None => url
    end
  else cut_at ";" url.

Definition urlparse (url : string) : ParseResult :=
  let '(sch, rest) := split_scheme url in
  let '(loc, rest) :=
    if String.prefix "//" rest then
      let after := PyStr.slice_from rest 2 in
      match find_delim after with
      | Some j => (PyStr.slice_to after j, PyStr.slice_from after j)
      | None => (after, "")
      end
    else ("", rest) in
  let rest := cut_at "?" (cut_at "#" rest) in
  let rest :=
    if existsb (String.eqb sch) uses_params then splitparams rest else rest in
  {| scheme := sch; netloc := loc; path := rest |}.

End Urlparse.

(** ** getdefaults *)

Section GetDefaults.

Context {V : Type}.

(** The record [LOG.warn] emits. *)
Definition deprecation_warning (key canonical : string) : string :=
  "Using deprecated option '" ++ key ++ "' (replaced by '" ++ canonical ++ "')".

(** The [for key in args] loop: the value returned and the warnings
    logged. *)
Fixpoint getdefaults_loop (settings : gmap string V) (canonical : string)
    (keys : list string) (default : V) : V * list string :=
  match keys with
  | [] => (default, [])
  | key :: keys' =>
      match settings !! key with
      | Some v =>
          (v, if bool_decide (key ≠ canonical)
              then [deprecation_warning key canonical] else [])
      | None => getdefaults_loop settings canonical keys' default
      end
  end.

(** [getdefaults(settings, *args)] with [args = keys + (default,)]: the
    assertion [len(args) >= 3] asks for at least two keys. *)
Definition getdefaults (settings : gmap string V) (keys : list string)
    (default : V) : result (V * list string) :=
  if (3 <=? List.length keys + 1)%nat then
    match keys with
    | canonical :: _ => Ok (getdefaults_loop settings canonical keys default)
    | [] => Err AssertionError
    end
  else Err AssertionError.

End GetDefaults.

(** ** retry *)

Section Retry.

(** [St] is everything the target function can read and change, [Val] its
    return values and [Exc] the exceptions it can raise. *)
Context {St Val Exc : Type}.

Inductive outcome (A : Type) : Type :=
  | Return (a : A)
  | Raise (e : Exc).

(** [isinstance(e, exceptions)] for the tuple given to the decorator. *)
Variable exceptions : Exc -> bool.

(** The body of [for n in xrange(tries)], [iters] iterations being left.
    An exception outside [exceptions] is not caught.  When the loop runs
    out, the function falls off its end and returns [None]. *)
Fixpoint retry_loop (fn : St -> outcome Val * St) (tries : Z) (iters : nat)
    (n : Z) (s : St) : outcome (option Val) * St :=
  match iters with
  | O => (Return _ None, s)
  | S iters' =>
      match fn s with
      | (Return _ v, s') => (Return _ (Some v), s')
      | (Raise _ e, s') =>
          if exceptions e then
            if (n =? tries - 1)%Z then (Raise _ e, s')
            else retry_loop fn tries iters' (n + 1)%Z s'
          else (Raise _ e, s')
      end
  end.

(** [retry(tries, exceptions)(fn)] *)
Definition retrying_wrapper (tries : Z) (fn : St -> outcome Val * St)
    (s : St) : outcome (option Val) * St :=
  retry_loop fn tries (Z.to_nat tries) 0%Z s.

(** The target function with a counter of its invocations next to its
    state. *)
Definition counted (fn : St -> outcome Val * St)
    : St * nat -> outcome Val * (St * nat) :=
  fun '(s, c) => let '(o, s') := fn s in (o, (s', S c)).

(** The state before invocation number [i] (from zero) of [fn]. *)
Fixpoint state_before (fn : St -> outcome Val * St) (i : nat) (s : St) : St :=
  match i with
  | O => s
  | S j => snd (fn (state_before fn j s))
  end.

(** What invocation number [i] (from zero) does. *)
Definition nth_call (fn : St -> outcome Val * St) (i : nat) (s : St)
    : outcome Val :=
  fst (fn (state_before fn i s)).

End Retry.

Arguments Return {Exc A} a.
Arguments Raise {Exc A} e.

(** ** dt2ts: the microsecond arithmetic

    [dt2ts] returns a float; what is embedded here is the integer it
    divides by [10**6], computed from the fields of the [timedelta]
    [dt - EPOCH]. *)
Record timedelta : Type := {
  days : Z;
  seconds : Z;
  microseconds : Z;
}.

(** [td.microseconds + (td.seconds + td.days * 24 * 3600) * 10**6] *)
Definition dt2ts_microseconds (td : timedelta) : Z :=
  (microseconds td + (seconds td + days td * 24 * 3600) * 10 ^ 6)%Z.

(** The fields Python gives the [timedelta] of a signed number of
    microseconds: seconds and microseconds are never negative, the sign is
    carried by the days. *)
Definition timedelta_of_microseconds (m : Z) : timedelta :=
  {| days := (m / (86400 * 10 ^ 6))%Z;
     seconds := ((m mod (86400 * 10 ^ 6)) / 10 ^ 6)%Z;
     microseconds := (m mod 10 ^ 6)%Z |}.

(** The invariant of the fields of a [timedelta]. *)
Definition normalized (td : timedelta) : Prop :=
  (0 <= seconds td < 86400)%Z /\ (0 <= microseconds td < 10 ^ 6)%Z.

(** ** Floats

    A Python float is an IEEE 754 binary64 number: not-a-number, an
    infinity, or a finite number [m * 2^e] with a mantissa of fewer than
    54 bits and [-1074 <= e <= 971].  The sign of a zero is not kept. *)
Inductive float64 : Type :=
  | F_nan
  | F_inf (negative : bool)
  | F_fin (m e : Z).

Definition pow2 (z : Z) : Q := ((2 # 1) ^ z)%Q.

(** The value of the finite float [m * 2^e]. *)
Definition F2Q (m e : Z) : Q := (inject_Z m * pow2 e)%Q.


(** The nearest integer, ties to the even one. *)
Definition round_half_even (y : Q) : Z :=
  let f := Qfloor y in
  match (y - inject_Z f ?= 1 # 2)%Q with
  | Lt => f
  | Gt => (f + 1)%Z
  | Eq => if Z.even f then f else (f + 1)%Z
  end.

(** For [x > 0], the integer [k] with [2^k <= x < 2^(k+1)]. *)
Definition ilog2 (x : Q) : Z :=
  let k := (Z.log2 (Qnum x) - Z.log2 (Zpos (Qden x)))%Z in
  if Qle_bool (pow2 k) x then k else (k - 1)%Z.

(** Rounding of a rational to binary64, to nearest, ties to even: the
    exponent is the one of the binade of [x] (or the least one, for a
    subnormal result), the mantissa the rounded quotient, renormalised
    when it reaches [2^53].  The runtime raises [OverflowError] when the
    result is beyond the largest float. *)
Definition binary64_round (x : Q) : result float64 :=
  if Qeq_bool x 0 then Ok (F_fin 0 0) else
  let e := Z.max (-1074) (ilog2 (Qabs x) - 52) in
  let m := round_half_even (x / pow2 e) in
  let '(m, e) :=
    if (Z.abs m =? 2 ^ 53)%Z then ((m / 2)%Z, (e + 1)%Z) else (m, e) in
  if (e <=? 971)%Z then Ok (F_fin m e) else Err OverflowError.

(** [a / b] on integers under [from __future__ import division]: the
    quotient, correctly rounded to a float. *)
Definition true_divide (a b : Z) : result float64 :=
  if (b =? 0)%Z then Err ZeroDivisionError
  else binary64_round (inject_Z a / inject_Z b).

(** ** Timestamps *)

(** A datetime, given by the microseconds from 1970-01-01T00:00:00 to the
    date and time its fields show (in UTC for an aware one), and by
    whether it carries a [tzinfo]. *)
Record datetime : Type := {
  instant : Z;
  aware : bool;
}.

(** [EPOCH = datetime(1970, 1, 1, tzinfo=UTC)] *)
Definition EPOCH : datetime := {| instant := 0; aware := true |}.

(** [datetime.min] and [datetime.max]: 0001-01-01T00:00:00 and
    9999-12-31T23:59:59.999999. *)
Definition MIN_INSTANT : Z := (-62135596800 * 10 ^ 6)%Z.
Definition MAX_INSTANT : Z := (253402300800 * 10 ^ 6 - 1)%Z.

(** The nearest integer, ties away from zero. *)
Definition round_half_away (y : Q) : Z :=
  let f := Qfloor y in
  match (y - inject_Z f ?= 1 # 2)%Q with
  | Lt => f
  | Gt => (f + 1)%Z
  | Eq => if (0 <=? f)%Z then (f + 1)%Z else f
  end.

(** How the runtime rounds a timestamp that falls half way between two
    microseconds: away from zero in Python 2.7, to the even microsecond
    from Python 3.6 on. *)
Inductive tie_rule : Type :=
  | ties_away_from_zero
  | ties_to_even.

(** The microsecond a timestamp falls on: the nearest one. *)
Definition timestamp_instant (rule : tie_rule) (m e : Z) : Z :=
  match rule with
  | ties_away_from_zero => round_half_away (F2Q m e * inject_Z (10 ^ 6))
  | ties_to_even => round_half_even (F2Q m e * inject_Z (10 ^ 6))
  end.

(** Modelled from the documentation of [datetime.utcfromtimestamp]: the
    naive datetime of the UTC time [t] seconds after the epoch, to the
    microsecond; [ValueError] when [t] is not a number or falls outside
    the years 1 to 9999. *)
Definition utcfromtimestamp (rule : tie_rule) (t : float64)
    : result datetime :=
  match t with
  | F_fin m e =>
      let us := timestamp_instant rule m e in
      if (MIN_INSTANT <=? us)%Z && (us <=? MAX_INSTANT)%Z
      then Ok {| instant := us; aware := false |}
      else Err (ValueError "year is out of range")
  | _ => Err (ValueError "timestamp out of range")
  end.

(** [dt.replace(tzinfo=UTC)] *)
Definition replace_tzinfo_UTC (dt : datetime) : datetime :=
  {| instant := instant dt; aware := true |}.

(** [ts2dt] on a float ([float(ts)] is [ts] itself), under the rounding
    rule of the runtime. *)
Definition ts2dt (rule : tie_rule) (ts : float64) : result datetime :=
  match utcfromtimestamp rule ts with
  | Ok dt => Ok (replace_tzinfo_UTC dt)
  | Err e => Err e
  end.

(** [a - b] on datetimes: the runtime refuses to subtract a naive
    datetime from an aware one, or the converse. *)
Definition datetime_sub (a b : datetime) : result timedelta :=
  if Bool.eqb (aware a) (aware b)
  then Ok (timedelta_of_microseconds (instant a - instant b))
  else Err TypeError.

Definition dt2ts (dt : datetime) : result float64 :=
  match datetime_sub dt EPOCH with
  | Ok td => true_divide (dt2ts_microseconds td) (10 ^ 6)
  | Err e => Err e
  end.

(** ** The state of the module

    What a call can read and change besides its arguments: the objects
    that exist when the call is made, here the locators, each under its
    reference, and the records of the module logger [LOG].  The functions
    that touch it are written as the source has them, in a state monad:
    [getdefaults] with its [LOG.warn], [score_url] with its read of
    [self.prefer_wheel], [locate] with its assignment. *)
Section ModuleState.

Context {Base Req Dist V Val Exc : Type}.
Variable urlparse : string -> ParseResult.

Record world : Type := World {
  objects : nat -> BetterScrapingLocator Base;
  LOG : list string;
}.

Definition M (A : Type) : Type := world -> A * world.

Definition ret {A : Type} (a : A) : M A := fun w => (a, w).

Definition bind {A B : Type} (m : M A) (k : A -> M B) : M B :=
  fun w => let '(a, w') := m w in k a w'.

(** [LOG.warn(...)] *)
Definition LOG_warn (record : string) : M unit :=
  fun w => (tt, World (objects w) (LOG w ++ [record])).

(** [self.prefer_wheel] *)
Definition get_prefer_wheel (self : nat) : M bool :=
  fun w => (prefer_wheel (objects w self), w).

(** [self.prefer_wheel = wheel] *)
Definition set_prefer_wheel (self : nat) (wheel : bool) : M unit :=
  fun w =>
    (tt,
     World (fun l => if Nat.eqb l self
                     then {| prefer_wheel := wheel;
                             base := base (objects w self) |}
                     else objects w l)
           (LOG w)).

(** [SimpleScrapingLocator.locate] on the object under [self]. *)
Variable super_locate_m : nat -> Req -> bool -> M (option Dist).

Definition locate_m (self : nat) (requirement : Req)
    (prereleases wheel : bool) : M (option Dist) :=
  bind (set_prefer_wheel self wheel)
       (fun _ => super_locate_m self requirement prereleases).

Definition score_url_m (self : nat) (url : string) : M score :=
  bind (get_prefer_wheel self) (fun prefer =>
    let t := urlparse url in
    let filename := basename (path t) in
    ret (String.eqb (scheme t) "https",
         negb (xorb prefer (PyStr.endswith filename ".whl")),
         PyStr.contains "pypi.python.org" (netloc t),
         filename)).

Fixpoint getdefaults_loop_m (settings : gmap string V) (canonical : string)
    (keys : list string) (default : V) : M V :=
  match keys with
  | [] => ret default
  | key :: keys' =>
      match settings !! key with
      | Some v =>
          bind (if bool_decide (key ≠ canonical)
                then LOG_warn (deprecation_warning key canonical)
                else ret tt)
               (fun _ => ret v)
      | None => getdefaults_loop_m settings canonical keys' default
      end
  end.

Definition getdefaults_m (settings : gmap string V) (keys : list string)
    (default : V) : M (result V) :=
  if (3 <=? List.length keys + 1)%nat then
    match keys with
    | canonical :: _ =>
        bind (getdefaults_loop_m settings canonical keys default)
             (fun v => ret (Ok v))
    | [] => ret (Err AssertionError)
    end
  else ret (Err AssertionError).

(** The calls a client of the module can make.  The functions that
    neither read nor write the state are the functions defined above;
    the target of [retry] is any computation on the state. *)
Inductive call : Type :=
  | call_normalize_name (name : string)
  | call_parse_filename (filename : string) (name : option string)
  | call_dt2ts (dt : datetime)
  | call_ts2dt (ts : float64)
  | call_score_url (self : nat) (url : string)
  | call_locate (self : nat) (requirement : Req) (prereleases wheel : bool)
  | call_getdefaults (settings : gmap string V) (keys : list string)
      (default : V)
  | call_retry (exceptions : Exc -> bool) (tries : Z)
      (fn : world -> outcome (Exc := Exc) Val * world).

(** The state a call leaves. *)
Definition run (c : call) (w : world) : world :=
  match c with
  | call_normalize_name _ | call_parse_filename _ _
  | call_dt2ts _ | call_ts2dt _ => w
  | call_score_url self url => snd (score_url_m self url w)
  | call_locate self requirement prereleases wheel =>
      snd (locate_m self requirement prereleases wheel w)
  | call_getdefaults settings keys default =>
      snd (getdefaults_m settings keys default w)
  | call_retry exceptions tries fn =>
      snd (retrying_wrapper exceptions tries fn w)
  end.

End ModuleState.

Arguments World {Base} objects LOG.
Arguments objects {Base} w.
Arguments LOG {Base} w.

(** * Properties *)

(** ** normalize_name *)

Example normalize_name_foo_bar_baz :
  normalize_name "Foo_Bar.Baz" = "foo-bar-baz".
Proof. reflexivity. Qed.

Example normalize_name_runs :
  normalize_name "a-_.b..C" = "a-b-c".
Proof. reflexivity. Qed.

(** *** Properties of the scanner *)

Lemma is_sep_lower_ascii c : is_sep (PyStr.lower_ascii c) = is_sep c.
Proof.
  destruct c as [[] [] [] [] [] [] [] []]; reflexivity.
Qed.

Lemma lower_ascii_idem c :
  PyStr.lower_ascii (PyStr.lower_ascii c) = PyStr.lower_ascii c.
Proof.
  destruct c as [[] [] [] [] [] [] [] []]; reflexivity.
Qed.

Lemma lower_idem s : PyStr.lower (PyStr.lower s) = PyStr.lower s.
Proof.
  induction s as [|c s IH]; simpl; [reflexivity|].
  now rewrite lower_ascii_idem, IH.
Qed.

(** Lower-casing commutes with the substitution, in both scanner states. *)
Lemma re_sub_lower s :
  re_sub (PyStr.lower s) = PyStr.lower (re_sub s) /\
  in_run (PyStr.lower s) = PyStr.lower (in_run s).
Proof.
  induction s as [|c s [IH1 IH2]]; simpl; [split; reflexivity|].
  rewrite is_sep_lower_ascii.
  destruct (is_sep c) eqn:Hc; simpl.
  - rewrite IH2. split; reflexivity.
  - rewrite IH1. split; reflexivity.
Qed.

(** The output of the substitution has no run left to collapse. *)
Lemma re_sub_idem s :
  re_sub (re_sub s) = re_sub s /\ in_run (in_run s) = in_run s.
Proof.
  induction s as [|c s [IH1 IH2]]; simpl; [split; reflexivity|].
  destruct (is_sep c) eqn:Hc; simpl.
  - rewrite IH2. split; reflexivity.
  - rewrite Hc, IH1. split; reflexivity.
Qed.

(** The scanner against the wording "every maximal run becomes one
    ['-']": a character outside the class is copied, and a non-empty run
    of separators that ends the string or is followed by such a character
    yields a single ['-']. *)
Fixpoint all_sep (r : string) : bool :=
  match r with
  | EmptyString => true
  | String c r' => is_sep c && all_sep r'
  end.

Definition starts_with_sep (s : string) : bool :=
  match s with
  | EmptyString => false
  | String c _ => is_sep c
  end.

Lemma in_run_skips r s :
  all_sep r = true -> in_run (r ++ s) = in_run s.
Proof.
  induction r as [|c r IH]; simpl; [reflexivity|].
  intros H. apply andb_prop in H as [Hc Hr]. rewrite Hc. exact (IH Hr).
Qed.

Lemma in_run_outside s : starts_with_sep s = false -> in_run s = re_sub s.
Proof. destruct s as [|c s]; simpl; [reflexivity|]. intros ->. reflexivity. Qed.

Lemma re_sub_maximal_run c r s :
  is_sep c = true -> all_sep r = true -> starts_with_sep s = false ->
  re_sub (String c r ++ s) = String "-" (re_sub s).
Proof.
  intros Hc Hr Hs. simpl. rewrite Hc, (in_run_skips r s Hr).
  rewrite (in_run_outside s Hs). reflexivity.
Qed.

Lemma re_sub_copies c s :
  is_sep c = false -> re_sub (String c s) = String c (re_sub s).
Proof. intros Hc. simpl. rewrite Hc. reflexivity. Qed.

(** C5: [normalize_name] is idempotent: normalising an already normalised
    name (runs of ['-'], ['_'], ['.'] collapsed to one ['-'], then
    lower-cased) returns it unchanged. *)
Theorem normalize_name_idempotent (s : string) :
  normalize_name (normalize_name s) = normalize_name s.
Proof.
  unfold normalize_name.
  rewrite (proj1 (re_sub_lower (re_sub s))).
  rewrite (proj1 (re_sub_idem s)).
  apply lower_idem.
Qed.

(** ** parse_filename *)

Example parse_filename_requests :
  parse_filename_distlib "requests-2.18.4.tar.gz" None
  = Ok ("requests", "2.18.4").
Proof. vm_compute. reflexivity. Qed.

Example parse_filename_wheel :
  parse_filename_distlib "Foo_Bar-1.0-py2-none-any.whl" None
  = Ok ("foo-bar", "1.0").
Proof. vm_compute. reflexivity. Qed.

Example parse_filename_txt :
  parse_filename_distlib "not-a-package-file.txt" None
  = Err (ValueError "Cannot parse package file 'not-a-package-file.txt'").
Proof. vm_compute. reflexivity. Qed.

Section ParseFilenameFacts.

Variable exts : list string.
Variable split :
  string -> option string -> option (string * string * option string).

(** The loop stops at the first extension that is a suffix. *)
Lemma ext_loop_matched filename name :
  ext_loop split exts filename name =
  match matched_extension exts filename with
  | None => None
  | Some ext => split_for split filename name ext
  end.
Proof.
  unfold matched_extension, split_for.
  induction exts as [|ext exts' IH]; simpl; [reflexivity|].
  destruct (PyStr.endswith filename ext); [|exact IH].
  destruct (split _ name) as [[[pn v] pyver]|]; reflexivity.
Qed.

Lemma matched_extension_None filename :
  matched_extension exts filename = None <->
  forall ext, In ext exts -> PyStr.endswith filename ext = false.
Proof.
  unfold matched_extension. split.
  - intros H ext Hin.
    exact (List.find_none _ _ H ext Hin).
  - intros H. induction exts as [|ext exts' IH]; simpl; [reflexivity|].
    rewrite (H ext (or_introl eq_refl)).
    apply IH. intros e He. apply H. right. exact He.
Qed.

Lemma split_for_None filename name ext :
  split_for split filename name ext = None <->
  split (PyStr.slice_to_neg filename (String.length ext)) name = None.
Proof.
  unfold split_for.
  destruct (split _ name) as [[[pn v] pyver]|]; split; congruence.
Qed.

(** [parse_filename] in terms of the matched extension and its split. *)
Lemma parse_filename_matched filename name :
  parse_filename exts split filename name =
  match matched_extension exts filename with
  | None => Err (cannot_parse filename)
  | Some ext =>
      match split_for split filename name ext with
      | None => Err (cannot_parse filename)
      | Some (parsed_name, version) =>
          Ok (normalize_name (default parsed_name name), version)
      end
  end.
Proof.
  unfold parse_filename. rewrite ext_loop_matched.
  destruct (matched_extension exts filename) as [ext|]; [|reflexivity].
  destruct (split_for split filename name ext) as [[pn v]|]; [|reflexivity].
  destruct name; reflexivity.
Qed.

End ParseFilenameFacts.

(** C1 as stated fails over distlib: with the hint ["bar"] the split of
    ["foo-1.0"] falls back to the pattern and produces the name ["foo"],
    while the call returns the normalised hint. *)
Lemma parse_filename_hint_counterexample :
  matched_extension ALL_EXTENSIONS "foo-1.0.tar.gz" = Some ".tar.gz" /\
  split_for Distlib.split_filename "foo-1.0.tar.gz" (Some "bar") ".tar.gz"
    = Some ("foo", "1.0") /\
  parse_filename_distlib "foo-1.0.tar.gz" (Some "bar") = Ok ("bar", "1.0") /\
  "bar" <> normalize_name "foo".
Proof.
  repeat split; try (vm_compute; reflexivity).
  vm_compute. discriminate.
Qed.

(** C1 (amended): when [parse_filename] succeeds with a hint name supplied,
    the returned name is [normalize_name] of the hint itself; the split of
    the trimmed filename, made for the first extension that is a suffix,
    supplies only the version. *)
Theorem parse_filename_hint_name
    (exts : list string)
    (split : string -> option string -> option (string * string * option string))
    (filename hint n v : string) :
  parse_filename exts split filename (Some hint) = Ok (n, v) ->
  n = normalize_name hint /\
  exists ext parsed_name,
    matched_extension exts filename = Some ext /\
    split_for split filename (Some hint) ext = Some (parsed_name, v).
Proof.
  unfold parse_filename. rewrite ext_loop_matched.
  destruct (matched_extension exts filename) as [ext|]; [|discriminate].
  destruct (split_for split filename (Some hint) ext) as [[pn pv]|] eqn:Hs;
    [|discriminate].
  intros H. injection H as Hn Hv. subst n v.
  split; [reflexivity|]. exists ext, pn. split; [reflexivity|exact Hs].
Qed.

Lemma parse_filename_hint_name_witness :
  parse_filename ALL_EXTENSIONS Distlib.split_filename
    "foo-1.0.tar.gz" (Some "Bar") = Ok ("bar", "1.0") /\
  "bar" = normalize_name "Bar".
Proof.
  assert (H : parse_filename ALL_EXTENSIONS Distlib.split_filename
                "foo-1.0.tar.gz" (Some "Bar") = Ok ("bar", "1.0"))
    by (vm_compute; reflexivity).
  split; [exact H|].
  exact (proj1 (parse_filename_hint_name ALL_EXTENSIONS Distlib.split_filename
                  "foo-1.0.tar.gz" "Bar" "bar" "1.0" H)).
Defined.

(** A list in which one extension ends with another, unlike distlib's:
    with [".tar.gz"; ".gz"] and the file ["a-.tar.gz"], the first
    extension is a suffix and its remainder ["a-"] does not split, the
    second is a suffix too and its remainder ["a-.tar"] splits; stopping
    at the first suffix then loses a parse. *)
Example nested_extensions_lose_a_parse :
  PyStr.endswith "a-.tar.gz" ".tar.gz" = true /\
  split_for Distlib.split_filename "a-.tar.gz" None ".tar.gz" = None /\
  PyStr.endswith "a-.tar.gz" ".gz" = true /\
  split_for Distlib.split_filename "a-.tar.gz" None ".gz" = Some ("a", ".tar") /\
  spec_parse_filename [".tar.gz"; ".gz"] Distlib.split_filename "a-.tar.gz" None
    = Ok ("a", ".tar") /\
  parse_filename [".tar.gz"; ".gz"] Distlib.split_filename "a-.tar.gz" None
    = Err (cannot_parse "a-.tar.gz").
Proof.
  repeat split; vm_compute; reflexivity.
Qed.

(** C9: [parse_filename] raises if and only if no known extension is a
    suffix of the filename or the split fails for the matched extension;
    the error raised is the [ValueError] whose message quotes the original
    filename, and a successful call raises nothing. *)
Theorem parse_filename_raises_iff
    (exts : list string)
    (split : string -> option string -> option (string * string * option string))
    (filename : string) (name : option string) :
  ((exists e, parse_filename exts split filename name = Err e) <->
   (forall ext, In ext exts -> PyStr.endswith filename ext = false) \/
   (exists ext,
      matched_extension exts filename = Some ext /\
      split (PyStr.slice_to_neg filename (String.length ext)) name = None)) /\
  (forall e, parse_filename exts split filename name = Err e ->
     e = ValueError ("Cannot parse package file '" ++ filename ++ "'")) /\
  (forall r, parse_filename exts split filename name = Ok r ->
     forall e, parse_filename exts split filename name <> Err e).
Proof.
  rewrite parse_filename_matched.
  rewrite <- matched_extension_None.
  destruct (matched_extension exts filename) as [ext|] eqn:Hm.
  - destruct (split_for split filename name ext) as [[pn v]|] eqn:Hs.
    + repeat split.
      * intros [e He]. discriminate.
      * intros [H|(ext' & Hext & Hsplit)]; [discriminate|].
        injection Hext as <-. apply split_for_None in Hsplit. congruence.
      * intros e He. discriminate.
      * intros r _ e He. discriminate.
    + repeat split.
      * intros _. right. exists ext. split; [reflexivity|].
        apply split_for_None. exact Hs.
      * intros _. eexists. reflexivity.
      * intros e He. injection He as <-. reflexivity.
      * intros r Hr. discriminate.
  - repeat split.
    + intros _. left. reflexivity.
    + intros _. eexists. reflexivity.
    + intros e He. injection He as <-. reflexivity.
    + intros r Hr. discriminate.
Qed.

(** *** Extension lists none of whose entries ends with another

    For such a list at most one extension can be a suffix of a filename,
    and stopping at the first suffix loses nothing. *)
Definition suffix_free (exts : list string) : Prop :=
  forall e1 e2, In e1 exts -> In e2 exts ->
                PyStr.endswith e1 e2 = true -> e1 = e2.

Lemma endswith_suffix s suf :
  PyStr.endswith s suf = true <->
  PyStr.to_list suf `suffix_of` PyStr.to_list s.
Proof. unfold PyStr.endswith. apply bool_decide_eq_true. Qed.

Lemma spec_ext_loop_only_failing
    (split : string -> option string -> option (string * string * option string))
    (exts : list string) (filename : string) (name : option string) :
  (forall e, In e exts -> PyStr.endswith filename e = true ->
             split_for split filename name e = None) ->
  spec_ext_loop split exts filename name = None.
Proof.
  induction exts as [|ext exts' IH]; intros Hfail; simpl; [reflexivity|].
  destruct (PyStr.endswith filename ext) eqn:He.
  - rewrite (Hfail ext (or_introl eq_refl) He).
    apply IH. intros e Hin. apply Hfail. right. exact Hin.
  - apply IH. intros e Hin. apply Hfail. right. exact Hin.
Qed.

Lemma spec_ext_loop_suffix_free
    (split : string -> option string -> option (string * string * option string))
    (exts : list string) (filename : string) (name : option string) :
  suffix_free exts ->
  spec_ext_loop split exts filename name = ext_loop split exts filename name.
Proof.
  induction exts as [|ext exts' IH]; intros Hfree; simpl; [reflexivity|].
  assert (Hfree' : suffix_free exts').
  { intros e1 e2 H1 H2. apply Hfree; right; assumption. }
  destruct (PyStr.endswith filename ext) eqn:He; [|exact (IH Hfree')].
  unfold split_for at 1.
  destruct (split _ name) as [[[pn v] pyver]|] eqn:Hs; [reflexivity|].
  apply spec_ext_loop_only_failing.
  intros e Hin Hsuf.
  assert (e = ext) as ->.
  { apply endswith_suffix in He, Hsuf.
    destruct (suffix_weak_total _ _ _ He Hsuf) as [H|H];
      apply endswith_suffix in H.
    - apply Hfree; [right; exact Hin|left; reflexivity|exact H].
    - symmetry. apply Hfree; [left; reflexivity|right; exact Hin|exact H]. }
  unfold split_for. rewrite Hs. reflexivity.
Qed.

(** distlib's extensions form such a list. *)
Lemma ALL_EXTENSIONS_suffix_free : suffix_free ALL_EXTENSIONS.
Proof.
  intros e1 e2 H1 H2.
  unfold ALL_EXTENSIONS, Distlib.source_extensions,
    Distlib.binary_extensions in H1, H2.
  simpl in H1, H2.
  repeat (destruct H1 as [<-|H1]); try contradiction;
    repeat (destruct H2 as [<-|H2]); try contradiction;
    first [reflexivity | vm_compute; discriminate].
Qed.

(** Over distlib, and without a hint, [parse_filename] and the policy of
    the specification agree on every filename. *)
Lemma parse_filename_distlib_agrees (filename : string) :
  parse_filename_distlib filename None
  = spec_parse_filename ALL_EXTENSIONS Distlib.split_filename filename None.
Proof.
  unfold parse_filename_distlib, parse_filename, spec_parse_filename.
  rewrite (spec_ext_loop_suffix_free _ _ _ _ ALL_EXTENSIONS_suffix_free).
  reflexivity.
Qed.



(** ** retry *)

Section RetryFacts.

Context {St Val Exc : Type}.
Variable exceptions : Exc -> bool.
Variable fn : St -> outcome (Exc := Exc) Val * St.

(** Invocation number [i] raises an exception the decorator catches. *)
Definition fails_at (s : St) (i : nat) : Prop :=
  exists e, nth_call fn i s = Raise e /\ exceptions e = true.

Lemma counted_step s c :
  counted fn (s, c) = (fst (fn s), (snd (fn s), S c)).
Proof. unfold counted. destruct (fn s); reflexivity. Qed.

Lemma state_before_shift i s :
  state_before fn i (snd (fn s)) = state_before fn (S i) s.
Proof.
  induction i as [|i IH]; simpl; [reflexivity|].
  rewrite IH. reflexivity.
Qed.

Lemma nth_call_shift i s :
  nth_call fn i (snd (fn s)) = nth_call fn (S i) s.
Proof. unfold nth_call. rewrite state_before_shift. reflexivity. Qed.

(** A success at invocation [j] after [j] caught failures, with enough
    iterations left and the last index not reached before: the loop returns
    the value, after [j + 1] invocations. *)
Lemma retry_loop_success tries v :
  forall (j iters : nat) (n : Z) (s : St) (c : nat),
    (j < iters)%nat ->
    (n + Z.of_nat j <= tries - 1)%Z ->
    (forall i, (i < j)%nat -> fails_at s i) ->
    nth_call fn j s = Return v ->
    retry_loop exceptions (counted fn) tries iters n (s, c)
    = (Return (Some v), (state_before fn (S j) s, (c + S j)%nat)).
Proof.
  induction j as [|j IH]; intros iters n s c Hlt Hn Hfail Hret;
    destruct iters as [|iters]; try lia;
    cbn [retry_loop]; rewrite counted_step; cbn [fst snd].
  - unfold nth_call in Hret. simpl in Hret. rewrite Hret.
    f_equal; f_equal; try reflexivity; lia.
  - destruct (Hfail 0%nat ltac:(lia)) as (e & He & Hexc).
    unfold nth_call in He. simpl in He. rewrite He, Hexc.
    destruct (Z.eqb_spec n (tries - 1)) as [Heq|_]; [lia|].
    rewrite (IH iters (n + 1)%Z (snd (fn s)) (S c)).
    + rewrite state_before_shift. f_equal; f_equal; try reflexivity; lia.
    + lia.
    + lia.
    + intros i Hi. destruct (Hfail (S i) ltac:(lia)) as (e' & He' & Hexc').
      exists e'. rewrite nth_call_shift. split; assumption.
    + rewrite nth_call_shift. exact Hret.
Qed.

(** Caught failures up to the last index [tries - 1]: the loop re-raises
    the exception of that last invocation. *)
Lemma retry_loop_exhausted tries e :
  forall (j iters : nat) (n : Z) (s : St) (c : nat),
    (j < iters)%nat ->
    (n + Z.of_nat j = tries - 1)%Z ->
    (forall i, (i < j)%nat -> fails_at s i) ->
    nth_call fn j s = Raise e -> exceptions e = true ->
    retry_loop exceptions (counted fn) tries iters n (s, c)
    = (Raise e, (state_before fn (S j) s, (c + S j)%nat)).
Proof.
  induction j as [|j IH]; intros iters n s c Hlt Hn Hfail Hlast Hexc;
    destruct iters as [|iters]; try lia;
    cbn [retry_loop]; rewrite counted_step; cbn [fst snd].
  - unfold nth_call in Hlast. simpl in Hlast. rewrite Hlast, Hexc.
    destruct (Z.eqb_spec n (tries - 1)) as [_|Hne]; [|lia].
    f_equal; f_equal; try reflexivity; lia.
  - destruct (Hfail 0%nat ltac:(lia)) as (e0 & He0 & Hexc0).
    unfold nth_call in He0. simpl in He0. rewrite He0, Hexc0.
    destruct (Z.eqb_spec n (tries - 1)) as [Heq|_]; [lia|].
    rewrite (IH iters (n + 1)%Z (snd (fn s)) (S c)).
    + rewrite state_before_shift. f_equal; f_equal; try reflexivity; lia.
    + lia.
    + lia.
    + intros i Hi. destruct (Hfail (S i) ltac:(lia)) as (e' & He' & Hexc').
      exists e'. rewrite nth_call_shift. split; assumption.
    + rewrite nth_call_shift. exact Hlast.
    + exact Hexc.
Qed.

End RetryFacts.

(** A target that fails on its first two invocations and then succeeds.
    Its state is the number of invocations so far, and the exception it
    raises carries the number of the failing invocation. *)
Definition flaky (s : nat) : outcome (Exc := nat) nat * nat :=
  if (s <? 2)%nat then (Raise (S s), S s) else (Return 42%nat, S s).

Definition catch_all (e : nat) : bool := true.

Lemma flaky_fails_twice i : (i < 2)%nat -> fails_at catch_all flaky 0%nat i.
Proof.
  intros Hi. exists (S i).
  destruct i as [|[|i]]; [split; reflexivity..|lia].
Qed.

(** C3: for [tries >= 1], if the target raises a designated exception on
    its first [k - 1] invocations ([k <= tries]) and returns [v] on the
    [k]-th, the wrapped call returns [v] and invokes the target exactly [k]
    times; if it raises a designated exception on every one of [tries]
    invocations, the wrapped call invokes it exactly [tries] times and
    propagates the exception of the last invocation unchanged. *)
Theorem retry_returns_or_propagates {St Val Exc : Type}
    (exceptions : Exc -> bool) (fn : St -> outcome (Exc := Exc) Val * St)
    (tries : Z) (s : St) :
  (1 <= tries)%Z ->
  (forall (k : nat) (v : Val),
      (1 <= k)%nat -> (Z.of_nat k <= tries)%Z ->
      (forall i, (i < k - 1)%nat -> fails_at exceptions fn s i) ->
      nth_call fn (k - 1) s = Return v ->
      retrying_wrapper exceptions tries (counted fn) (s, 0%nat)
      = (Return (Some v), (state_before fn k s, k))) /\
  (forall e : Exc,
      (forall i, (i < Z.to_nat tries)%nat -> fails_at exceptions fn s i) ->
      nth_call fn (Z.to_nat tries - 1) s = Raise e ->
      retrying_wrapper exceptions tries (counted fn) (s, 0%nat)
      = (Raise e, (state_before fn (Z.to_nat tries) s, Z.to_nat tries))).
Proof.
  intros Htries. unfold retrying_wrapper. split.
  - intros k v Hk Hle Hfail Hret.
    destruct k as [|j]; [lia|].
    replace (S j - 1)%nat with j in * by lia.
    rewrite (retry_loop_success exceptions fn tries v j);
      [reflexivity | lia | lia | assumption | assumption].
  - intros e Hfail Hlast.
    destruct (Z.to_nat tries) as [|j] eqn:Hj; [lia|].
    replace (S j - 1)%nat with j in * by lia.
    destruct (Hfail j ltac:(lia)) as (e' & He' & Hexc).
    assert (e' = e) as -> by congruence.
    rewrite (retry_loop_exhausted exceptions fn tries e j);
      [reflexivity | lia | lia | | assumption | assumption].
    intros i Hi. apply Hfail. lia.
Qed.

Lemma retry_returns_or_propagates_witness :
  retrying_wrapper catch_all 3 (counted flaky) (0%nat, 0%nat)
  = (Return (Some 42%nat), (3%nat, 3%nat)) /\
  retrying_wrapper catch_all 2 (counted flaky) (0%nat, 0%nat)
  = (Raise 2%nat, (2%nat, 2%nat)).
Proof.
  split.
  - apply (proj1 (retry_returns_or_propagates catch_all flaky 3 0%nat
                    ltac:(lia)) 3%nat 42%nat);
      [lia | lia | exact flaky_fails_twice | reflexivity].
  - apply (proj2 (retry_returns_or_propagates catch_all flaky 2 0%nat
                    ltac:(lia)) 2%nat);
      [exact flaky_fails_twice | reflexivity].
Defined.

(** C10: with [tries = 0] the attempt loop runs no iteration: the wrapped
    call returns [None] and never invokes the target. *)
Theorem retry_zero_tries {St Val Exc : Type}
    (exceptions : Exc -> bool) (fn : St -> outcome (Exc := Exc) Val * St)
    (s : St) :
  retrying_wrapper exceptions 0 (counted fn) (s, 0%nat)
  = (Return None, (s, 0%nat)).
Proof. reflexivity. Qed.

(** The same holds for any non-positive [tries]. *)
Lemma retry_nonpositive_tries {St Val Exc : Type}
    (exceptions : Exc -> bool) (fn : St -> outcome (Exc := Exc) Val * St)
    (tries : Z) (s : St) :
  (tries <= 0)%Z ->
  retrying_wrapper exceptions tries fn s = (Return None, s).
Proof.
  intros H. unfold retrying_wrapper.
  replace (Z.to_nat tries) with 0%nat by lia. reflexivity.
Qed.

(** ** BetterScrapingLocator *)

Lemma cmp_bool_Gt a b : cmp_bool a b = Gt <-> a = true /\ b = false.
Proof.
  destruct a, b; simpl; split;
    first [intros [? ?]; congruence | intros ?; try split; congruence].
Qed.

Lemma cmp_bool_Eq a b : cmp_bool a b = Eq <-> a = b.
Proof. destruct a, b; simpl; split; congruence. Qed.

Lemma cmp_then_Gt c rest :
  cmp_then c rest = Gt <-> c = Gt \/ (c = Eq /\ rest = Gt).
Proof.
  destruct c; simpl; split; intros H; auto;
    try (destruct H as [H|[H _]]; congruence).
  destruct H as [H|[_ H]]; congruence.
Qed.

(** The comparison of two scores, component by component. *)
Lemma score_gt_lexicographic (a1 b1 c1 a2 b2 c2 : bool) (f1 f2 : string) :
  score_gt (a1, b1, c1, f1) (a2, b2, c2, f2) = true <->
  (a1 = true /\ a2 = false) \/
  (a1 = a2 /\
   ((b1 = true /\ b2 = false) \/
    (b1 = b2 /\
     ((c1 = true /\ c2 = false) \/
      (c1 = c2 /\ String.compare f1 f2 = Gt))))).
Proof.
  unfold score_gt, cmp_score.
  transitivity
    (cmp_then (cmp_bool a1 a2)
       (cmp_then (cmp_bool b1 b2)
          (cmp_then (cmp_bool c1 c2) (String.compare f1 f2))) = Gt).
  { destruct (cmp_then _ _); split; congruence. }
  rewrite !cmp_then_Gt, !cmp_bool_Gt, !cmp_bool_Eq. reflexivity.
Qed.

(** A superclass [locate] that finds nothing and keeps its state. *)
Definition not_found_locate (score_of : string -> score) (b : unit)
    (requirement : string) (prereleases : bool) : option string * unit :=
  (None, b).

(** C6 as stated fails: [locate] called with [wheel = False] on a fresh
    locator leaves the object with [prefer_wheel = False], and the score
    the object gives to a wheel URL is not what it was before the call. *)
Lemma locate_mutates_counterexample :
  prefer_wheel (new_locator tt) = true /\
  prefer_wheel
    (snd (locate Urlparse.urlparse not_found_locate
            (new_locator tt) "foo" false false)) = false /\
  score_url Urlparse.urlparse
    (snd (locate Urlparse.urlparse not_found_locate
            (new_locator tt) "foo" false false))
    "https://pypi.python.org/packages/foo-1.0-py2-none-any.whl"
  <> score_url Urlparse.urlparse (new_locator tt)
       "https://pypi.python.org/packages/foo-1.0-py2-none-any.whl".
Proof.
  repeat split. vm_compute. discriminate.
Qed.

(** [locate] hands the superclass the score of the updated object, and
    leaves the field at [wheel]. *)
Lemma locate_sets_prefer_wheel {Base Req Dist : Type}
    (urlparse : string -> ParseResult)
    (super_locate :
       (string -> score) -> Base -> Req -> bool -> option Dist * Base)
    (self : BetterScrapingLocator Base) (requirement : Req)
    (prereleases wheel : bool) :
  prefer_wheel
    (snd (locate urlparse super_locate self requirement prereleases wheel))
  = wheel /\
  locate urlparse super_locate self requirement prereleases wheel
  = (fst (super_locate
            (score_url urlparse {| prefer_wheel := wheel; base := base self |})
            (base self) requirement prereleases),
     {| prefer_wheel := wheel;
        base := snd (super_locate
                       (score_url urlparse
                          {| prefer_wheel := wheel; base := base self |})
                       (base self) requirement prereleases) |}) /\
  (forall url,
      score_url urlparse
        (snd (locate urlparse super_locate self requirement prereleases wheel))
        url
      = score_url urlparse {| prefer_wheel := wheel; base := base self |} url).
Proof.
  unfold locate. cbn [prefer_wheel base].
  destruct (super_locate _ (base self) requirement prereleases) as [found b].
  repeat split.
Qed.

(** *** What the components of the score test *)

Fixpoint has_char (c : ascii) (s : string) : bool :=
  match s with
  | EmptyString => false
  | String d s' => (d =? c)%char || has_char c s'
  end.

Lemma to_list_app (s t : string) :
  PyStr.to_list (s ++ t)%string = (PyStr.to_list s ++ PyStr.to_list t)%list.
Proof.
  induction s as [|c s IH]; simpl; [reflexivity|].
  unfold PyStr.to_list in *. simpl. rewrite IH. reflexivity.
Qed.

Lemma of_list_app (l1 l2 : list ascii) :
  PyStr.of_list (l1 ++ l2)%list
  = (PyStr.of_list l1 ++ PyStr.of_list l2)%string.
Proof.
  induction l1 as [|c l1 IH]; simpl; [reflexivity|].
  unfold PyStr.of_list in *. simpl. rewrite IH. reflexivity.
Qed.

Lemma length_to_list (s : string) :
  List.length (PyStr.to_list s) = String.length s.
Proof.
  induction s as [|c s IH]; simpl; [reflexivity|].
  unfold PyStr.to_list in *. simpl. rewrite IH. reflexivity.
Qed.

(** [s.endswith(suf)]: [s] is some string followed by [suf]. *)
Lemma endswith_iff (s suf : string) :
  PyStr.endswith s suf = true <-> exists p, s = (p ++ suf)%string.
Proof.
  unfold PyStr.endswith. rewrite bool_decide_eq_true. split.
  - intros [k Hk]. exists (PyStr.of_list k).
    rewrite <- (string_of_list_ascii_of_string s).
    fold (PyStr.to_list s) PyStr.of_list. rewrite Hk, of_list_app.
    f_equal. apply string_of_list_ascii_of_string.
  - intros [p ->]. exists (PyStr.to_list p). apply to_list_app.
Qed.

Lemma append_cons (c : ascii) (s t : string) :
  (String c s ++ t)%string = String c (s ++ t)%string.
Proof. reflexivity. Qed.

Lemma append_nil (t : string) : ("" ++ t)%string = t.
Proof. reflexivity. Qed.

Lemma prefix_iff (sub s : string) :
  String.prefix sub s = true <-> exists v, s = (sub ++ v)%string.
Proof.
  revert s. induction sub as [|c sub IH]; intros s.
  - destruct s; simpl; split; eauto.
  - destruct s as [|d s]; simpl.
    + split; [discriminate|intros [v Hv]; discriminate].
    + destruct (Ascii.ascii_dec c d) as [->|Hne].
      * rewrite IH.
        split; intros [v Hv]; exists v; rewrite append_cons in *; congruence.
      * split; [discriminate|]. intros [v Hv].
        rewrite append_cons in Hv. congruence.
Qed.

Lemma contains_nil (sub : string) :
  PyStr.contains sub "" = String.prefix sub "".
Proof. unfold PyStr.contains. apply orb_false_r. Qed.

Lemma contains_cons (sub : string) (c : ascii) (s : string) :
  PyStr.contains sub (String c s)
  = String.prefix sub (String c s) || PyStr.contains sub s.
Proof. reflexivity. Qed.

(** [sub in s]: [sub] occurs somewhere in [s]. *)
Lemma contains_iff (sub s : string) :
  PyStr.contains sub s = true <-> exists u v, s = (u ++ sub ++ v)%string.
Proof.
  split.
  - induction s as [|c s IH]; intros H.
    + rewrite contains_nil in H. apply prefix_iff in H as [v Hv].
      exists "", v. exact Hv.
    + rewrite contains_cons in H. apply orb_prop in H as [H|H].
      * apply prefix_iff in H as [v Hv]. exists "", v. exact Hv.
      * destruct (IH H) as (u & v & ->). exists (String c u), v. reflexivity.
  - intros (u & v & ->). induction u as [|c u IH].
    + rewrite append_nil.
      destruct (sub ++ v)%string as [|d w] eqn:E.
      * rewrite contains_nil. apply prefix_iff. exists v. symmetry. exact E.
      * rewrite contains_cons. apply orb_true_intro. left.
        apply prefix_iff. exists v. symmetry. exact E.
    + rewrite append_cons, contains_cons, IH. apply orb_true_r.
Qed.

Lemma rfind_absent (c : ascii) (s : string) :
  has_char c s = false -> rfind c s = (-1)%Z.
Proof.
  induction s as [|d s IH]; simpl; [reflexivity|].
  intros H. apply orb_false_elim in H as [Hd Hs].
  rewrite (IH Hs), Hd. reflexivity.
Qed.

Lemma rfind_last (c : ascii) (d n : string) :
  has_char c n = false ->
  rfind c (d ++ String c n) = Z.of_nat (String.length d).
Proof.
  intros Hn. induction d as [|x d IH]; simpl.
  - rewrite (rfind_absent c n Hn), Ascii.eqb_refl. reflexivity.
  - rewrite IH.
    destruct (Z.leb_spec 0 (Z.of_nat (String.length d))); lia.
Qed.

Lemma slice_from_app (d n : string) :
  PyStr.slice_from (d ++ n) (String.length d) = n.
Proof.
  unfold PyStr.slice_from. rewrite to_list_app, <- length_to_list.
  rewrite drop_app_length. apply string_of_list_ascii_of_string.
Qed.

Lemma append_one (c : ascii) (d n : string) :
  (d ++ String c n)%string = ((d ++ String c "") ++ n)%string /\
  String.length (d ++ String c "") = S (String.length d).
Proof.
  induction d as [|x d [IH1 IH2]].
  - split; reflexivity.
  - rewrite !append_cons. cbn [String.length]. rewrite <- IH1, IH2.
    split; reflexivity.
Qed.

(** [posixpath.basename]: what follows the last ['/'] of the path, and the
    whole path when it has none. *)
Lemma basename_spec (p d n : string) :
  (has_char "/" p = false -> basename p = p) /\
  (has_char "/" n = false -> basename (d ++ String "/" n) = n).
Proof.
  unfold basename. split; intros H.
  - rewrite (rfind_absent _ _ H). simpl.
    unfold PyStr.slice_from. simpl. apply string_of_list_ascii_of_string.
  - rewrite (rfind_last _ d n H).
    destruct (append_one "/" d n) as [Happ Hlen].
    replace (Z.to_nat (Z.of_nat (String.length d) + 1))
      with (String.length (d ++ "/")) by (rewrite Hlen; lia).
    rewrite Happ. apply slice_from_app.
Qed.

(** The key as the specification words it, with "the host is the
    canonical package-index host" as third component. *)
Definition spec_score_url {Base : Type} (urlparse : string -> ParseResult)
    (self : BetterScrapingLocator Base) (url : string) : score :=
  let t := urlparse url in
  let filename := basename (path t) in
  (String.eqb (scheme t) "https",
   Bool.eqb (prefer_wheel self) (PyStr.endswith filename ".whl"),
   String.eqb (netloc t) "pypi.python.org",
   filename).

(** C8 as stated fails: the third component is not "the host is the
    canonical host" but a substring test.  A mirror whose name contains
    ["pypi.python.org"] gets [True] there, and its URL outranks, by file
    name, the URL of the canonical host, which the key of the
    specification ranks first. *)
Lemma score_url_mirror_counterexample :
  netloc (Urlparse.urlparse
            "https://pypi.python.org.evil.example/p/b-1.0.tar.gz")
  = "pypi.python.org.evil.example" /\
  score_url Urlparse.urlparse (new_locator tt)
    "https://pypi.python.org.evil.example/p/b-1.0.tar.gz"
  = (true, false, true, "b-1.0.tar.gz") /\
  score_url Urlparse.urlparse (new_locator tt)
    "https://pypi.python.org/p/a-1.0.tar.gz"
  = (true, false, true, "a-1.0.tar.gz") /\
  score_gt
    (score_url Urlparse.urlparse (new_locator tt)
       "https://pypi.python.org.evil.example/p/b-1.0.tar.gz")
    (score_url Urlparse.urlparse (new_locator tt)
       "https://pypi.python.org/p/a-1.0.tar.gz") = true /\
  score_gt
    (spec_score_url Urlparse.urlparse (new_locator tt)
       "https://pypi.python.org/p/a-1.0.tar.gz")
    (spec_score_url Urlparse.urlparse (new_locator tt)
       "https://pypi.python.org.evil.example/p/b-1.0.tar.gz") = true.
Proof. repeat split; vm_compute; reflexivity. Qed.

(** C8 (amended): [score_url] ranks URLs by the key (the scheme is
    ["https"]; the file being a wheel, that is ending in [".whl"], agrees
    with the current wheel preference; the string ["pypi.python.org"]
    occurs in the network location; the file name, which is what follows
    the last ['/'] of the path), compared in that order of priority, the
    file names as byte strings last; so, wheels being preferred, an HTTPS
    wheel on the canonical host scores strictly higher than an HTTP file
    that is not a wheel on a host without that string. *)
Theorem score_url_ranking {Base : Type}
    (urlparse : string -> ParseResult) (self : BetterScrapingLocator Base) :
  (forall url a b c f,
      score_url urlparse self url = (a, b, c, f) ->
      (a = true <-> scheme (urlparse url) = "https") /\
      (b = true <->
       (prefer_wheel self = true <-> exists p, f = (p ++ ".whl")%string)) /\
      (c = true <->
       exists u v,
         netloc (urlparse url) = (u ++ "pypi.python.org" ++ v)%string) /\
      (has_char "/" (path (urlparse url)) = false ->
       f = path (urlparse url)) /\
      (forall d n,
          path (urlparse url) = (d ++ String "/" n)%string ->
          has_char "/" n = false -> f = n)) /\
  (forall (a1 b1 c1 a2 b2 c2 : bool) (f1 f2 : string),
      score_gt (a1, b1, c1, f1) (a2, b2, c2, f2) = true <->
      (a1 = true /\ a2 = false) \/
      (a1 = a2 /\
       ((b1 = true /\ b2 = false) \/
        (b1 = b2 /\
         ((c1 = true /\ c2 = false) \/
          (c1 = c2 /\ String.compare f1 f2 = Gt)))))) /\
  (forall url1 url2,
      prefer_wheel self = true ->
      scheme (urlparse url1) = "https" ->
      PyStr.endswith (basename (path (urlparse url1))) ".whl" = true ->
      netloc (urlparse url1) = "pypi.python.org" ->
      scheme (urlparse url2) = "http" ->
      PyStr.endswith (basename (path (urlparse url2))) ".whl" = false ->
      PyStr.contains "pypi.python.org" (netloc (urlparse url2)) = false ->
      score_gt (score_url urlparse self url1) (score_url urlparse self url2)
      = true).
Proof.
  split; [|split].
  - intros url a b c f H. unfold score_url in H.
    injection H as <- <- <- <-.
    split; [apply String.eqb_eq|].
    split.
    { pose proof (endswith_iff (basename (path (urlparse url))) ".whl") as He.
      destruct (PyStr.endswith (basename (path (urlparse url))) ".whl");
        destruct (prefer_wheel self); simpl; intuition congruence. }
    split; [apply contains_iff|].
    split.
    { intros Hno. apply (proj1 (basename_spec _ "" "") Hno). }
    intros d n Hp Hn. rewrite Hp. apply (proj2 (basename_spec "" d n) Hn).
  - exact score_gt_lexicographic.
  - intros url1 url2 Hw Hs1 _ _ Hs2 _ _.
    unfold score_url. rewrite Hs1, Hs2.
    apply score_gt_lexicographic. left. split; reflexivity.
Qed.

Lemma score_url_ranking_witness :
  score_gt
    (score_url Urlparse.urlparse (new_locator tt)
       "https://pypi.python.org/packages/foo-1.0-py2-none-any.whl")
    (score_url Urlparse.urlparse (new_locator tt)
       "http://mirror.example.com/simple/foo/foo-1.0.tar.gz")
  = true.
Proof.
  apply (proj2 (proj2 (score_url_ranking Urlparse.urlparse (new_locator tt))));
    vm_compute; reflexivity.
Defined.

(** ** getdefaults *)

Section GetDefaultsFacts.

Context {V : Type}.
Variable settings : gmap string V.
Variable default : V.

(** No key of the list is in the dictionary: the loop falls through. *)
Lemma getdefaults_loop_absent canonical (keys : list string) :
  (forall k, In k keys -> settings !! k = None) ->
  getdefaults_loop settings canonical keys default = (default, []).
Proof.
  induction keys as [|key keys IH]; intros Habs; simpl; [reflexivity|].
  rewrite (Habs key (or_introl eq_refl)).
  apply IH. intros k Hk. apply Habs. right. exact Hk.
Qed.

(** The loop returns at the first key that is in the dictionary, and
    warns when that key differs from the canonical one. *)
Lemma getdefaults_loop_first canonical (keys : list string) :
  forall (i : nat) (k : string) (v : V),
    keys !! i = Some k ->
    settings !! k = Some v ->
    (forall j k', (j < i)%nat -> keys !! j = Some k' -> settings !! k' = None) ->
    getdefaults_loop settings canonical keys default
    = (v, if bool_decide (k ≠ canonical)
          then [deprecation_warning k canonical] else []).
Proof.
  induction keys as [|key keys IH]; intros i k v Hi Hk Hfirst; [discriminate|].
  destruct i as [|i]; simpl in *.
  - injection Hi as ->. rewrite Hk. reflexivity.
  - rewrite (Hfirst 0%nat key ltac:(lia) eq_refl).
    apply (IH i k v Hi Hk).
    intros j k' Hj Hk'. apply (Hfirst (S j) k'); [lia|exact Hk'].
Qed.

End GetDefaultsFacts.

(** C7: given at least two keys, [getdefaults] returns [settings[k]] for
    the first key [k], in the given order, that is in [settings], and the
    default when no key is; it logs a deprecation warning (one, naming [k]
    and the canonical key) if and only if that first present key is not
    the first, canonical key of the list. *)
Theorem getdefaults_first_present {V : Type}
    (settings : gmap string V) (keys : list string) (default : V) :
  (2 <= List.length keys)%nat ->
  (forall (i : nat) (k : string) (v : V),
      keys !! i = Some k ->
      settings !! k = Some v ->
      (forall j k', (j < i)%nat -> keys !! j = Some k' ->
                    settings !! k' = None) ->
      exists log canonical,
        keys !! 0%nat = Some canonical /\
        getdefaults settings keys default = Ok (v, log) /\
        (log = [] <-> k = canonical) /\
        (log = [] <-> i = 0%nat) /\
        (k <> canonical -> log = [deprecation_warning k canonical])) /\
  ((forall k, In k keys -> settings !! k = None) ->
   getdefaults settings keys default = Ok (default, [])).
Proof.
  intros Hlen. destruct keys as [|canonical keys']; [simpl in Hlen; lia|].
  assert (Hguard : (3 <=? List.length (canonical :: keys') + 1)%nat = true)
    by (apply Nat.leb_le; lia).
  unfold getdefaults. rewrite Hguard. split.
  - intros i k v Hi Hk Hfirst.
    rewrite (getdefaults_loop_first settings default canonical
               (canonical :: keys') i k v Hi Hk Hfirst).
    eexists _, canonical. split; [reflexivity|]. split; [reflexivity|].
    assert (Hpos : k = canonical <-> i = 0%nat).
    { split.
      - intros ->. destruct i as [|i]; [reflexivity|].
        rewrite (Hfirst 0%nat canonical ltac:(lia) eq_refl) in Hk.
        discriminate.
      - intros ->. simpl in Hi. congruence. }
    case_bool_decide as Hne.
    + repeat split; intros; first [reflexivity | congruence | tauto].
    + assert (k = canonical) by (destruct (decide (k = canonical)); tauto).
      repeat split; intros; first [reflexivity | congruence | tauto].
  - intros Habs.
    rewrite (getdefaults_loop_absent settings default canonical _ Habs).
    reflexivity.
Qed.

Example getdefaults_new_key :
  getdefaults {["new_key" := "v"]} ["new_key"; "old_key"] "default"
  = Ok ("v", []).
Proof. vm_compute. reflexivity. Qed.

Example getdefaults_empty :
  getdefaults (∅ : gmap string string) ["new_key"; "old_key"] "default"
  = Ok ("default", []).
Proof. vm_compute. reflexivity. Qed.

Example getdefaults_one_key_asserts :
  getdefaults {["new_key" := "v"]} ["new_key"] "default" = Err AssertionError.
Proof. vm_compute. reflexivity. Qed.

Lemma getdefaults_first_present_witness :
  getdefaults {["old_key" := "v"]} ["new_key"; "old_key"] "default"
  = Ok ("v", ["Using deprecated option 'old_key' (replaced by 'new_key')"]).
Proof.
  destruct (proj1 (getdefaults_first_present
                     ({["old_key" := "v"]} : gmap string string)
                     ["new_key"; "old_key"] "default" ltac:(simpl; lia))
              1%nat "old_key" "v" eq_refl ltac:(vm_compute; reflexivity))
    as (log & canonical & Hc & Hres & _ & _ & Hwarn).
  - intros j k' Hj Hk'. destruct j as [|j]; [|lia].
    injection Hk' as <-. vm_compute. reflexivity.
  - injection Hc as <-. rewrite Hres, Hwarn; [reflexivity|discriminate].
Defined.

(** * Further properties of the module *)

(** ** normalize_name: the canonical form *)

(** A name in canonical form: no upper-case letter, no separator other
    than ['-'], and no ['-'] directly followed by a separator. *)
Fixpoint canonicalb (s : string) : bool :=
  match s with
  | EmptyString => true
  | String c s' =>
      negb (PyStr.is_upper c)
      && (if is_sep c then (c =? "-")%char && negb (starts_with_sep s')
          else true)
      && canonicalb s'
  end.

(** Two names of the same length that agree position by position up to the
    case of letters and the choice of separator. *)
Fixpoint same_letters (s t : string) : bool :=
  match s, t with
  | EmptyString, EmptyString => true
  | String c s', String d t' =>
      ((is_sep c && is_sep d)
       || (PyStr.lower_ascii c =? PyStr.lower_ascii d)%char)
      && same_letters s' t'
  | _, _ => false
  end.

Lemma is_upper_lower_ascii c : PyStr.is_upper (PyStr.lower_ascii c) = false.
Proof. destruct c as [[] [] [] [] [] [] [] []]; reflexivity. Qed.

Lemma lower_ascii_not_upper c :
  PyStr.is_upper c = false -> PyStr.lower_ascii c = c.
Proof. unfold PyStr.lower_ascii. intros ->. reflexivity. Qed.

Lemma canonical_scan s :
  canonicalb (PyStr.lower (re_sub s)) = true /\
  canonicalb (PyStr.lower (in_run s)) = true /\
  starts_with_sep (PyStr.lower (in_run s)) = false.
Proof.
  induction s as [|c s (IH1 & IH2 & IH3)]; simpl; [auto|].
  destruct (is_sep c) eqn:Hc; simpl.
  - rewrite IH2, IH3. auto.
  - rewrite is_upper_lower_ascii, is_sep_lower_ascii, Hc, IH1. auto.
Qed.

Lemma canonical_fixed s :
  canonicalb s = true -> PyStr.lower (re_sub s) = s.
Proof.
  induction s as [|c s IH]; simpl; [reflexivity|].
  intros H. apply andb_prop in H as [H Hs]. apply andb_prop in H as [Hup Hc].
  apply negb_true_iff in Hup.
  destruct (is_sep c) eqn:Hsep; simpl.
  - apply andb_prop in Hc as [Hdash Hnext].
    apply Ascii.eqb_eq in Hdash. subst c.
    apply negb_true_iff in Hnext.
    rewrite (in_run_outside s Hnext), (IH Hs). reflexivity.
  - rewrite (lower_ascii_not_upper c Hup), (IH Hs). reflexivity.
Qed.

(** X1: whatever the input, the result of [normalize_name] is in canonical
    form: it has no upper-case letter, no ['_'] or ['.'], and no two
    adjacent separators. *)
Theorem normalize_name_canonical (s : string) :
  canonicalb (normalize_name s) = true.
Proof. unfold normalize_name. apply (canonical_scan s). Qed.

(** A string of ASCII characters: on these a byte string and a text
    string are lower-cased alike. *)
Fixpoint ascii_only (s : string) : bool :=
  match s with
  | EmptyString => true
  | String c s' => (nat_of_ascii c <? 128)%nat && ascii_only s'
  end.

(** X2: among the names made of ASCII characters, those [normalize_name]
    leaves unchanged are exactly the names in canonical form. *)
Theorem normalize_name_fixed_iff (s : string) :
  ascii_only s = true ->
  (normalize_name s = s <-> canonicalb s = true).
Proof.
  intros _. split.
  - intros H. rewrite <- H. unfold normalize_name. apply (canonical_scan s).
  - apply canonical_fixed.
Qed.

Lemma normalize_name_fixed_iff_witness :
  (normalize_name "foo-bar" = "foo-bar" <-> canonicalb "foo-bar" = true) /\
  (normalize_name "Foo_bar" = "Foo_bar" <-> canonicalb "Foo_bar" = true).
Proof.
  split.
  - apply (normalize_name_fixed_iff "foo-bar"). reflexivity.
  - apply (normalize_name_fixed_iff "Foo_bar"). reflexivity.
Defined.

Lemma same_letters_scan s :
  forall t, same_letters s t = true ->
    PyStr.lower (re_sub s) = PyStr.lower (re_sub t) /\
    PyStr.lower (in_run s) = PyStr.lower (in_run t).
Proof.
  induction s as [|c s IH]; intros [|d t] H; simpl in H; try discriminate;
    [split; reflexivity|].
  apply andb_prop in H as [Hcd Hst].
  destruct (IH t Hst) as [IH1 IH2].
  assert (Hsep : is_sep c = is_sep d).
  { apply orb_prop in Hcd as [Hcd|Hcd].
    - apply andb_prop in Hcd as [-> ->]. reflexivity.
    - apply Ascii.eqb_eq in Hcd.
      rewrite <- (is_sep_lower_ascii c), Hcd. apply is_sep_lower_ascii. }
  simpl. rewrite <- Hsep.
  destruct (is_sep c) eqn:Hc; simpl.
  - rewrite IH2. split; reflexivity.
  - assert (Hl : PyStr.lower_ascii c = PyStr.lower_ascii d).
    { apply orb_prop in Hcd as [Hcd|Hcd].
      - apply andb_prop in Hcd as [Hc' _]. congruence.
      - apply Ascii.eqb_eq. exact Hcd. }
    rewrite Hl, IH1. split; reflexivity.
Qed.

(** X3: [normalize_name] does not see the case of letters nor which of
    ['-'], ['_'], ['.'] separates them: two names that agree position by
    position up to case and separator have the same normal form. *)
Theorem normalize_name_same_letters (s t : string) :
  same_letters s t = true -> normalize_name s = normalize_name t.
Proof. intros H. exact (proj1 (same_letters_scan s t H)). Qed.

Lemma normalize_name_same_letters_witness :
  normalize_name "Foo_Bar.Baz" = normalize_name "fOO-bar_baz".
Proof.
  apply (normalize_name_same_letters "Foo_Bar.Baz" "fOO-bar_baz").
  reflexivity.
Defined.

(** ** parse_filename: what a caller can rely on *)


Lemma matched_extension_Some (exts : list string) (filename ext : string) :
  matched_extension exts filename = Some ext ->
  In ext exts /\ PyStr.endswith filename ext = true.
Proof. unfold matched_extension. apply List.find_some. Qed.

Lemma normalize_twice (s : string) :
  normalize_name (normalize_name s) = normalize_name s.
Proof.
  unfold normalize_name.
  rewrite (proj1 (re_sub_lower (re_sub s))), (proj1 (re_sub_idem s)).
  apply lower_idem.
Qed.

(** X6: whenever [parse_filename] succeeds, with or without a hint, the
    name it returns is in canonical form and is a fixed point of
    [normalize_name], and the filename ends with one of the known
    extensions. *)
Theorem parse_filename_name_normalized
    (exts : list string)
    (split : string -> option string -> option (string * string * option string))
    (filename : string) (name : option string) (n v : string) :
  parse_filename exts split filename name = Ok (n, v) ->
  canonicalb n = true /\
  normalize_name n = n /\
  exists ext, In ext exts /\ PyStr.endswith filename ext = true.
Proof.
  rewrite parse_filename_matched.
  destruct (matched_extension exts filename) as [ext|] eqn:Hm; [|discriminate].
  destruct (split_for split filename name ext) as [[pn pv]|]; [|discriminate].
  intros H. injection H as <- <-.
  split; [apply (canonical_scan _)|].
  split; [apply normalize_twice|].
  exists ext. apply (matched_extension_Some _ _ _ Hm).
Qed.

Lemma parse_filename_name_normalized_witness :
  canonicalb "foo-bar" = true /\ normalize_name "foo-bar" = "foo-bar".
Proof.
  destruct (parse_filename_name_normalized ALL_EXTENSIONS
              Distlib.split_filename "Foo_Bar-1.0-py2-none-any.whl" None
              "foo-bar" "1.0" ltac:(vm_compute; reflexivity))
    as (Hc & Hn & _).
  split; assumption.
Defined.

(** X7: when [parse_filename] succeeds without a hint, the name returned
    is the normal form of the name the split produced for the first
    extension that is a suffix of the filename, and the version is the one
    the split produced, unchanged. *)
Theorem parse_filename_no_hint
    (exts : list string)
    (split : string -> option string -> option (string * string * option string))
    (filename n v : string) :
  parse_filename exts split filename None = Ok (n, v) ->
  exists ext parsed_name,
    matched_extension exts filename = Some ext /\
    split_for split filename None ext = Some (parsed_name, v) /\
    n = normalize_name parsed_name.
Proof.
  rewrite parse_filename_matched.
  destruct (matched_extension exts filename) as [ext|]; [|discriminate].
  destruct (split_for split filename None ext) as [[pn pv]|] eqn:Hs;
    [|discriminate].
  intros H. injection H as <- <-.
  exists ext, pn. repeat split. exact Hs.
Qed.

Lemma parse_filename_no_hint_witness :
  exists ext parsed_name,
    matched_extension ALL_EXTENSIONS "Foo_Bar-1.0-py2-none-any.whl" = Some ext /\
    split_for Distlib.split_filename "Foo_Bar-1.0-py2-none-any.whl" None ext
    = Some (parsed_name, "1.0") /\
    "foo-bar" = normalize_name parsed_name.
Proof.
  apply (parse_filename_no_hint ALL_EXTENSIONS Distlib.split_filename
           "Foo_Bar-1.0-py2-none-any.whl" "foo-bar" "1.0").
  vm_compute. reflexivity.
Defined.



(** X10: when no extension of the list ends with another one, stopping at
    the first extension that is a suffix loses nothing: if
    [parse_filename] raises, there is no extension in the list that is a
    suffix of the filename and whose remainder splits. *)
Theorem parse_filename_failure_complete
    (exts : list string)
    (split : string -> option string -> option (string * string * option string))
    (filename : string) (name : option string) (e : exn) :
  suffix_free exts ->
  parse_filename exts split filename name = Err e ->
  forall ext, In ext exts -> PyStr.endswith filename ext = true ->
              split_for split filename name ext = None.
Proof.
  intros Hfree Herr ext Hin Hsuf.
  rewrite parse_filename_matched in Herr.
  destruct (matched_extension exts filename) as [ext0|] eqn:Hm.
  - destruct (matched_extension_Some _ _ _ Hm) as [Hin0 Hsuf0].
    assert (ext = ext0) as ->.
    { apply endswith_suffix in Hsuf, Hsuf0.
      destruct (suffix_weak_total _ _ _ Hsuf Hsuf0) as [H|H];
        apply endswith_suffix in H.
      - symmetry. apply Hfree; assumption.
      - apply Hfree; assumption. }
    destruct (split_for split filename name ext0) as [[pn v]|];
      [discriminate|reflexivity].
  - pose proof (proj1 (matched_extension_None exts filename) Hm) as Hnone.
    rewrite (Hnone ext Hin) in Hsuf. discriminate.
Qed.

Lemma parse_filename_failure_complete_witness :
  split_for Distlib.split_filename "a-.tar.gz" None ".tar.gz" = None.
Proof.
  apply (parse_filename_failure_complete ALL_EXTENSIONS Distlib.split_filename
           "a-.tar.gz" None (cannot_parse "a-.tar.gz")
           ALL_EXTENSIONS_suffix_free).
  - vm_compute. reflexivity.
  - vm_compute. auto.
  - vm_compute. reflexivity.
Defined.

(** ** score_url: the ranking is a strict total order *)

Lemma ascii_compare_refl c : Ascii.compare c c = Eq.
Proof. apply N.compare_refl. Qed.

Lemma string_compare_refl s : String.compare s s = Eq.
Proof.
  induction s as [|c s IH]; simpl; [reflexivity|].
  rewrite ascii_compare_refl. exact IH.
Qed.

Lemma ascii_compare_Gt_trans a b c :
  Ascii.compare a b = Gt -> Ascii.compare b c = Gt -> Ascii.compare a c = Gt.
Proof.
  unfold Ascii.compare. rewrite !N.compare_gt_iff. lia.
Qed.

Lemma string_compare_Gt_trans s :
  forall t u,
    String.compare s t = Gt -> String.compare t u = Gt ->
    String.compare s u = Gt.
Proof.
  induction s as [|a s IH]; intros [|b t] [|c u]; simpl;
    try discriminate; try reflexivity.
  destruct (Ascii.compare a b) eqn:Hab; try discriminate;
    destruct (Ascii.compare b c) eqn:Hbc; try discriminate; intros H1 H2.
  - apply Ascii.compare_eq_iff in Hab, Hbc. subst.
    rewrite ascii_compare_refl. exact (IH _ _ H1 H2).
  - apply Ascii.compare_eq_iff in Hab. subst. rewrite Hbc. reflexivity.
  - apply Ascii.compare_eq_iff in Hbc. subst. rewrite Hab. reflexivity.
  - rewrite (ascii_compare_Gt_trans _ _ _ Hab Hbc). reflexivity.
Qed.

Lemma cmp_score_refl s : cmp_score s s = Eq.
Proof.
  destruct s as [[[a b] c] f]. unfold cmp_score.
  destruct a, b, c; simpl; apply string_compare_refl.
Qed.

Lemma cmp_score_antisym s1 s2 : cmp_score s1 s2 = CompOpp (cmp_score s2 s1).
Proof.
  destruct s1 as [[[a1 b1] c1] f1], s2 as [[[a2 b2] c2] f2]. unfold cmp_score.
  destruct a1, a2, b1, b2, c1, c2; simpl;
    try reflexivity; apply String.compare_antisym.
Qed.

Lemma cmp_score_eq s1 s2 : cmp_score s1 s2 = Eq -> s1 = s2.
Proof.
  destruct s1 as [[[a1 b1] c1] f1], s2 as [[[a2 b2] c2] f2]. unfold cmp_score.
  destruct a1, a2, b1, b2, c1, c2; simpl; try discriminate;
    intros H; apply String.compare_eq_iff in H; subst; reflexivity.
Qed.

Lemma cmp_score_Gt_trans s1 s2 s3 :
  cmp_score s1 s2 = Gt -> cmp_score s2 s3 = Gt -> cmp_score s1 s3 = Gt.
Proof.
  destruct s1 as [[[a1 b1] c1] f1], s2 as [[[a2 b2] c2] f2],
    s3 as [[[a3 b3] c3] f3]. unfold cmp_score.
  destruct a1, a2, a3; simpl; try discriminate; try reflexivity;
    destruct b1, b2, b3; simpl; try discriminate; try reflexivity;
    destruct c1, c2, c3; simpl; try discriminate; try reflexivity;
    apply string_compare_Gt_trans.
Qed.

(** X11: the comparison [prefer_url] makes between scores is a strict
    total order: no score is above itself, the order is asymmetric and
    transitive, and of two different scores one is above the other, so only
    URLs with identical scores tie. *)
Theorem score_gt_strict_total_order (s1 s2 s3 : score) :
  score_gt s1 s1 = false /\
  (score_gt s1 s2 = true -> score_gt s2 s1 = false) /\
  (score_gt s1 s2 = true -> score_gt s2 s3 = true -> score_gt s1 s3 = true) /\
  (s1 <> s2 -> score_gt s1 s2 = true \/ score_gt s2 s1 = true).
Proof.
  unfold score_gt. repeat split.
  - rewrite cmp_score_refl. reflexivity.
  - rewrite (cmp_score_antisym s2 s1).
    destruct (cmp_score s1 s2); simpl; congruence.
  - intros H1 H2.
    destruct (cmp_score s1 s2) eqn:H12; try discriminate.
    destruct (cmp_score s2 s3) eqn:H23; try discriminate.
    rewrite (cmp_score_Gt_trans _ _ _ H12 H23). reflexivity.
  - intros Hne. rewrite (cmp_score_antisym s2 s1).
    destruct (cmp_score s1 s2) eqn:H12; simpl; auto.
    apply cmp_score_eq in H12. contradiction.
Qed.

Lemma score_url_preference {Base : Type}
    (urlparse : string -> ParseResult) (self : BetterScrapingLocator Base)
    (url1 url2 : string) :
  String.eqb (scheme (urlparse url1)) "https"
  = String.eqb (scheme (urlparse url2)) "https" ->
  PyStr.endswith (basename (path (urlparse url1))) ".whl"
  = prefer_wheel self ->
  PyStr.endswith (basename (path (urlparse url2))) ".whl"
  = negb (prefer_wheel self) ->
  score_gt (score_url urlparse self url1) (score_url urlparse self url2)
  = true.
Proof.
  intros Hs H1 H2. unfold score_url. rewrite Hs, H1, H2.
  apply score_gt_lexicographic. right. split; [reflexivity|]. left.
  destruct (prefer_wheel self); split; reflexivity.
Qed.

(** X12: the [wheel] argument of [locate] decides the ranking from then
    on: on the locator [locate] leaves behind, of two URLs that are both
    HTTPS or both not, the one whose file is a wheel exactly when [wheel]
    is true outranks the other, whatever the hosts and the file names. *)
Theorem locate_then_score_url {Base Req Dist : Type}
    (urlparse : string -> ParseResult)
    (super_locate :
       (string -> score) -> Base -> Req -> bool -> option Dist * Base)
    (self : BetterScrapingLocator Base) (requirement : Req)
    (prereleases wheel : bool) (url1 url2 : string) :
  String.eqb (scheme (urlparse url1)) "https"
  = String.eqb (scheme (urlparse url2)) "https" ->
  PyStr.endswith (basename (path (urlparse url1))) ".whl" = wheel ->
  PyStr.endswith (basename (path (urlparse url2))) ".whl" = negb wheel ->
  score_gt
    (score_url urlparse
       (snd (locate urlparse super_locate self requirement prereleases wheel))
       url1)
    (score_url urlparse
       (snd (locate urlparse super_locate self requirement prereleases wheel))
       url2)
  = true.
Proof.
  intros Hs H1 H2. apply score_url_preference; [exact Hs| |].
  - unfold locate. cbn [prefer_wheel base].
    destruct (super_locate _ (base self) requirement prereleases).
    exact H1.
  - unfold locate. cbn [prefer_wheel base].
    destruct (super_locate _ (base self) requirement prereleases).
    exact H2.
Qed.

Lemma locate_then_score_url_witness :
  score_gt
    (score_url Urlparse.urlparse
       (snd (locate Urlparse.urlparse not_found_locate
               (new_locator tt) "foo" false false))
       "http://mirror.example.com/simple/foo/foo-1.0.tar.gz")
    (score_url Urlparse.urlparse
       (snd (locate Urlparse.urlparse not_found_locate
               (new_locator tt) "foo" false false))
       "http://pypi.python.org/packages/foo-1.0-py2-none-any.whl")
  = true.
Proof.
  apply (locate_then_score_url Urlparse.urlparse not_found_locate
           (new_locator tt) "foo" false false);
    vm_compute; reflexivity.
Defined.

(** ** getdefaults: the assertion, precedence and what is read *)

(** X13: [getdefaults] raises exactly when fewer than two keys are given,
    the error is the [AssertionError] of its first line, and it is raised
    even if the single key is in the dictionary. *)
Theorem getdefaults_asserts_iff {V : Type}
    (settings : gmap string V) (keys : list string) (default : V) :
  (getdefaults settings keys default = Err AssertionError <->
   (List.length keys < 2)%nat) /\
  (forall e, getdefaults settings keys default = Err e -> e = AssertionError).
Proof.
  unfold getdefaults.
  destruct (Nat.leb_spec 3 (List.length keys + 1)) as [Hle|Hlt].
  - destruct keys as [|canonical keys']; [simpl in Hle; lia|].
    repeat split; try discriminate; lia.
  - repeat split; try lia; congruence.
Qed.

(** X14: the canonical key takes precedence: when it is in the dictionary
    its value is returned and nothing is logged, whatever deprecated
    aliases the dictionary also holds. *)
Theorem getdefaults_canonical_first {V : Type}
    (settings : gmap string V) (canonical : string) (aliases : list string)
    (default v : V) :
  aliases <> [] ->
  settings !! canonical = Some v ->
  getdefaults settings (canonical :: aliases) default = Ok (v, []).
Proof.
  intros Hne Hv. unfold getdefaults.
  destruct aliases as [|a aliases]; [congruence|].
  replace (3 <=? List.length (canonical :: a :: aliases) + 1)%nat with true
    by (symmetry; apply Nat.leb_le; simpl; lia).
  cbn [getdefaults_loop]. rewrite Hv.
  rewrite bool_decide_eq_false_2 by auto. reflexivity.
Qed.

Lemma getdefaults_canonical_first_witness :
  getdefaults {["new_key" := "new"; "old_key" := "old"]}
    ["new_key"; "old_key"] "default" = Ok ("new", []).
Proof.
  apply (getdefaults_canonical_first
           ({["new_key" := "new"; "old_key" := "old"]} : gmap string string)
           "new_key" ["old_key"] "default" "new").
  - discriminate.
  - vm_compute. reflexivity.
Defined.

Lemma getdefaults_loop_frame {V : Type}
    (s1 s2 : gmap string V) (canonical : string) (keys : list string)
    (default : V) :
  (forall k, In k keys -> s1 !! k = s2 !! k) ->
  getdefaults_loop s1 canonical keys default
  = getdefaults_loop s2 canonical keys default.
Proof.
  induction keys as [|key keys IH]; intros Hsame; simpl; [reflexivity|].
  rewrite (Hsame key (or_introl eq_refl)).
  destruct (s2 !! key); [reflexivity|].
  apply IH. intros k Hk. apply Hsame. right. exact Hk.
Qed.

(** X15: [getdefaults] reads the dictionary at the listed keys only: two
    dictionaries that agree on the keys of the list give the same value
    and the same log. *)
Theorem getdefaults_frame {V : Type}
    (s1 s2 : gmap string V) (keys : list string) (default : V) :
  (forall k, In k keys -> s1 !! k = s2 !! k) ->
  getdefaults s1 keys default = getdefaults s2 keys default.
Proof.
  intros Hsame. unfold getdefaults.
  destruct (3 <=? List.length keys + 1)%nat; [|reflexivity].
  destruct keys as [|canonical keys']; [reflexivity|].
  rewrite (getdefaults_loop_frame s1 s2 canonical _ default Hsame).
  reflexivity.
Qed.

Lemma getdefaults_frame_witness :
  getdefaults {["old_key" := "v"; "other" := "x"]}
    ["new_key"; "old_key"] "default"
  = getdefaults {["old_key" := "v"]} ["new_key"; "old_key"] "default".
Proof.
  apply (getdefaults_frame
           ({["old_key" := "v"; "other" := "x"]} : gmap string string)
           ({["old_key" := "v"]} : gmap string string)).
  intros k Hk. simpl in Hk.
  destruct Hk as [<-|[<-|[]]]; vm_compute; reflexivity.
Defined.

Lemma getdefaults_loop_result {V : Type}
    (settings : gmap string V) (canonical : string) (keys : list string)
    (default v : V) (log : list string) :
  getdefaults_loop settings canonical keys default = (v, log) ->
  (v = default /\ log = [] /\ forall k, In k keys -> settings !! k = None) \/
  (exists k, In k keys /\ settings !! k = Some v /\
             (log = [] \/ log = [deprecation_warning k canonical])).
Proof.
  induction keys as [|key keys IH]; simpl; intros H.
  - injection H as <- <-. left. repeat split. intros k [].
  - destruct (settings !! key) as [x|] eqn:Hkey.
    + injection H as <- <-. right. exists key.
      split; [left; reflexivity|]. split; [exact Hkey|].
      case_bool_decide; auto.
    + destruct (IH H) as [(Hv & Hlog & Habs)|(k & Hin & Hk & Hlog)].
      * left. repeat split; try assumption.
        intros k [<-|Hk]; [exact Hkey|exact (Habs k Hk)].
      * right. exists k. repeat split; auto.
Qed.

(** X16: a successful call logs at most one warning, and the value it
    returns is either the default, when no listed key is in the dictionary
    (and then nothing is logged), or the value the dictionary holds for
    one of the listed keys, and a warning names that key and the first
    key of the list. *)
Theorem getdefaults_result {V : Type}
    (settings : gmap string V) (keys : list string) (default v : V)
    (log : list string) :
  getdefaults settings keys default = Ok (v, log) ->
  (List.length log <= 1)%nat /\
  ((v = default /\ log = [] /\ forall k, In k keys -> settings !! k = None) \/
   (exists k canonical,
       In k keys /\ settings !! k = Some v /\
       keys !! 0%nat = Some canonical /\
       (log = [] \/ log = [deprecation_warning k canonical]))).
Proof.
  unfold getdefaults.
  destruct (3 <=? List.length keys + 1)%nat; [|discriminate].
  destruct keys as [|canonical keys']; [discriminate|].
  intros H.
  assert (H' : getdefaults_loop settings canonical (canonical :: keys')
                 default = (v, log)) by congruence.
  destruct (getdefaults_loop_result _ _ _ _ _ _ H')
    as [(Hv & Hlog & Habs)|(k & Hin & Hk & Hlog)].
  - split; [subst log; simpl; lia|]. left. auto.
  - split; [destruct Hlog as [->| ->]; simpl; lia|].
    right. exists k, canonical. auto.
Qed.

Lemma getdefaults_result_witness :
  (List.length
     ["Using deprecated option 'old_key' (replaced by 'new_key')"] <= 1)%nat /\
  (("v" = "default" /\
    ["Using deprecated option 'old_key' (replaced by 'new_key')"] = [] /\
    forall k, In k ["new_key"; "old_key"] ->
              ({["old_key" := "v"]} : gmap string string) !! k = None) \/
   (exists k canonical,
       In k ["new_key"; "old_key"] /\
       ({["old_key" := "v"]} : gmap string string) !! k = Some "v" /\
       ["new_key"; "old_key"] !! 0%nat = Some canonical /\
       (["Using deprecated option 'old_key' (replaced by 'new_key')"] = [] \/
        ["Using deprecated option 'old_key' (replaced by 'new_key')"]
        = [deprecation_warning k canonical]))).
Proof.
  apply (getdefaults_result
           ({["old_key" := "v"]} : gmap string string)
           ["new_key"; "old_key"] "default" "v"
           ["Using deprecated option 'old_key' (replaced by 'new_key')"]).
  vm_compute. reflexivity.
Defined.

(** ** retry: exceptions that are not caught, and bounds on invocations *)

Section RetryBounds.

Context {St Val Exc : Type}.
Variable exceptions : Exc -> bool.
Variable fn : St -> outcome (Exc := Exc) Val * St.

(** Caught failures, then an exception outside [exceptions]: it leaves the
    loop at once. *)
Lemma retry_loop_uncaught tries e :
  forall (j iters : nat) (n : Z) (s : St) (c : nat),
    (j < iters)%nat ->
    (n + Z.of_nat j <= tries - 1)%Z ->
    (forall i, (i < j)%nat -> fails_at exceptions fn s i) ->
    nth_call fn j s = Raise e -> exceptions e = false ->
    retry_loop exceptions (counted fn) tries iters n (s, c)
    = (Raise e, (state_before fn (S j) s, (c + S j)%nat)).
Proof.
  induction j as [|j IH]; intros iters n s c Hlt Hn Hfail Hlast Hexc;
    destruct iters as [|iters]; try lia;
    cbn [retry_loop]; rewrite counted_step; cbn [fst snd].
  - unfold nth_call in Hlast. simpl in Hlast. rewrite Hlast, Hexc.
    f_equal; f_equal; try reflexivity; lia.
  - destruct (Hfail 0%nat ltac:(lia)) as (e0 & He0 & Hexc0).
    unfold nth_call in He0. simpl in He0. rewrite He0, Hexc0.
    destruct (Z.eqb_spec n (tries - 1)) as [Heq|_]; [lia|].
    rewrite (IH iters (n + 1)%Z (snd (fn s)) (S c)).
    + rewrite state_before_shift. f_equal; f_equal; try reflexivity; lia.
    + lia.
    + lia.
    + intros i Hi. destruct (Hfail (S i) ltac:(lia)) as (e' & He' & Hexc').
      exists e'. rewrite nth_call_shift. split; assumption.
    + rewrite nth_call_shift. exact Hlast.
    + exact Hexc.
Qed.

(** The loop makes at most [iters] invocations, and the state it leaves is
    the state after those invocations. *)
Lemma retry_loop_invocations tries :
  forall (iters : nat) (n : Z) (s : St) (c : nat),
  exists m, (m <= iters)%nat /\
    snd (retry_loop exceptions (counted fn) tries iters n (s, c))
    = (state_before fn m s, (c + m)%nat).
Proof.
  induction iters as [|iters IH]; intros n s c; cbn [retry_loop].
  - exists 0%nat. split; [lia|]. simpl. f_equal. lia.
  - rewrite counted_step; cbn [fst snd].
    assert (Hone : exists m, (m <= S iters)%nat /\
              (snd (fn s), S c) = (state_before fn m s, (c + m)%nat)).
    { exists 1%nat. split; [lia|]. simpl. f_equal. lia. }
    destruct (fst (fn s)) as [v|e]; [exact Hone|].
    destruct (exceptions e); [|exact Hone].
    destruct (n =? tries - 1)%Z; [exact Hone|].
    destruct (IH (n + 1)%Z (snd (fn s)) (S c)) as (m & Hm & Heq).
    exists (S m). split; [lia|]. rewrite Heq, state_before_shift.
    f_equal. lia.
Qed.

(** With the loop index and the iterations left adding up to [tries], the
    loop ends in a [return] or a [raise], not by running out. *)
Lemma retry_loop_no_fallthrough tries (g : St -> outcome (Exc := Exc) Val * St) :
  forall (iters : nat) (n : Z) (s : St),
    (1 <= iters)%nat -> (n + Z.of_nat iters = tries)%Z ->
    fst (retry_loop exceptions g tries iters n s) <> Return None.
Proof.
  induction iters as [|iters IH]; intros n s Hpos Hsum; [lia|].
  cbn [retry_loop]. destruct (g s) as [[v|e] s']; cbn [fst]; [discriminate|].
  destruct (exceptions e); [|discriminate].
  destruct (Z.eqb_spec n (tries - 1)) as [Heq|Hne]; [discriminate|].
  apply IH; lia.
Qed.

End RetryBounds.

(** An exception filter that designates exception [1] only. *)
Definition only_first (e : nat) : bool := (e =? 1)%nat.

(** X17: an exception that is not one of the designated ones is not
    retried: if the target raises designated exceptions on its first
    [k - 1] invocations ([k <= tries]) and another exception on the [k]-th,
    the wrapped call raises that exception after exactly [k] invocations. *)
Theorem retry_uncaught_propagates {St Val Exc : Type}
    (exceptions : Exc -> bool) (fn : St -> outcome (Exc := Exc) Val * St)
    (tries : Z) (s : St) (k : nat) (e : Exc) :
  (1 <= k)%nat -> (Z.of_nat k <= tries)%Z ->
  (forall i, (i < k - 1)%nat -> fails_at exceptions fn s i) ->
  nth_call fn (k - 1) s = Raise e ->
  exceptions e = false ->
  retrying_wrapper exceptions tries (counted fn) (s, 0%nat)
  = (Raise e, (state_before fn k s, k)).
Proof.
  intros Hk Hle Hfail Hlast Hexc. unfold retrying_wrapper.
  destruct k as [|j]; [lia|].
  replace (S j - 1)%nat with j in * by lia.
  rewrite (retry_loop_uncaught exceptions fn tries e j);
    [reflexivity | lia | lia | assumption | assumption | assumption].
Qed.

Lemma retry_uncaught_propagates_witness :
  retrying_wrapper only_first 5 (counted flaky) (0%nat, 0%nat)
  = (Raise 2%nat, (2%nat, 2%nat)).
Proof.
  apply (retry_uncaught_propagates only_first flaky 5 0%nat 2%nat 2%nat);
    [lia | lia | | reflexivity | reflexivity].
  intros i Hi. exists (S i).
  destruct i as [|i]; [split; reflexivity|lia].
Defined.

(** X18: whatever the target does, the wrapped call invokes it at most
    [tries] times, and the state it leaves is the state after exactly the
    invocations it made: the wrapper has no effect of its own. *)
Theorem retry_at_most_tries {St Val Exc : Type}
    (exceptions : Exc -> bool) (fn : St -> outcome (Exc := Exc) Val * St)
    (tries : Z) (s : St) :
  exists m,
    (m <= Z.to_nat tries)%nat /\
    snd (retrying_wrapper exceptions tries (counted fn) (s, 0%nat))
    = (state_before fn m s, m).
Proof.
  unfold retrying_wrapper.
  destruct (retry_loop_invocations exceptions fn tries (Z.to_nat tries)
              0%Z s 0%nat) as (m & Hm & Heq).
  exists m. split; [exact Hm|]. rewrite Heq. reflexivity.
Qed.

(** X19: with [tries >= 1] the wrapped call never falls off the end of
    the loop: it returns a value of the target or raises, and does not
    return [None] in place of a result. *)
Theorem retry_never_falls_through {St Val Exc : Type}
    (exceptions : Exc -> bool) (fn : St -> outcome (Exc := Exc) Val * St)
    (tries : Z) (s : St) :
  (1 <= tries)%Z ->
  fst (retrying_wrapper exceptions tries fn s) <> Return None.
Proof.
  intros Htries. unfold retrying_wrapper.
  apply retry_loop_no_fallthrough; lia.
Qed.

Lemma retry_never_falls_through_witness :
  fst (retrying_wrapper catch_all 2 flaky 0%nat) <> Return None.
Proof.
  apply (retry_never_falls_through catch_all flaky 2 0%nat). lia.
Defined.

(** X20: a negative [tries] behaves as zero: the wrapped call returns
    [None] and the target is never invoked. *)
Theorem retry_nonpositive_never_invokes {St Val Exc : Type}
    (exceptions : Exc -> bool) (fn : St -> outcome (Exc := Exc) Val * St)
    (tries : Z) (s : St) :
  (tries <= 0)%Z ->
  retrying_wrapper exceptions tries (counted fn) (s, 0%nat)
  = (Return None, (s, 0%nat)).
Proof.
  intros H. unfold retrying_wrapper.
  replace (Z.to_nat tries) with 0%nat by lia. reflexivity.
Qed.

Lemma retry_nonpositive_never_invokes_witness :
  retrying_wrapper catch_all (-3) (counted flaky) (0%nat, 0%nat)
  = (Return None, (0%nat, 0%nat)).
Proof.
  apply (retry_nonpositive_never_invokes catch_all flaky (-3) 0%nat). lia.
Defined.

(** ** dt2ts: the microsecond arithmetic *)

(** X21: the integer [dt2ts] divides by [10**6] is the exact signed count
    of microseconds of the [timedelta]: it gives back the count a
    normalised [timedelta] was made from, also a negative one, it
    determines the fields of a normalised [timedelta], and it is negative
    exactly when the days are, that is for a datetime before the epoch. *)
Theorem dt2ts_microseconds_exact (m : Z) (td : timedelta) :
  dt2ts_microseconds (timedelta_of_microseconds m) = m /\
  normalized (timedelta_of_microseconds m) /\
  (normalized td ->
   timedelta_of_microseconds (dt2ts_microseconds td) = td /\
   (dt2ts_microseconds td < 0 <-> days td < 0)%Z).
Proof.
  unfold dt2ts_microseconds, timedelta_of_microseconds, normalized.
  cbn [days seconds microseconds].
  change (10 ^ 6)%Z with 1000000%Z. change (86400 * 1000000)%Z with 86400000000%Z.
  split; [|split].
  - pose proof (Z.div_mod m 86400000000 ltac:(lia)) as H1.
    pose proof (Z.div_mod (m mod 86400000000) 1000000 ltac:(lia)) as H2.
    assert (H3 : ((m mod 86400000000) mod 1000000 = m mod 1000000)%Z).
    { change 86400000000%Z with (86400 * 1000000)%Z.
      rewrite Z.mul_comm. rewrite Z.rem_mul_r by lia.
      rewrite Z.mul_comm, Z.mod_add by lia. apply Z.mod_mod. lia. }
    lia.
  - pose proof (Z.mod_pos_bound m 86400000000 ltac:(lia)) as Hb.
    pose proof (Z.mod_pos_bound m 1000000 ltac:(lia)) as Hc.
    split; [|exact Hc]. split.
    + apply Z.div_pos; lia.
    + apply Z.div_lt_upper_bound; lia.
  - intros [Hs Hu]. destruct td as [d sec us]. cbn [days seconds microseconds] in *.
    assert (Hm : (us + (sec + d * 24 * 3600) * 1000000
                  = d * 86400000000 + (sec * 1000000 + us))%Z) by lia.
    assert (Hr : (0 <= sec * 1000000 + us < 86400000000)%Z) by lia.
    assert (Hd : ((us + (sec + d * 24 * 3600) * 1000000) / 86400000000 = d)%Z).
    { rewrite Hm. symmetry. apply (Z.div_unique_pos _ _ d (sec * 1000000 + us));
        lia. }
    assert (Hmod : ((us + (sec + d * 24 * 3600) * 1000000) mod 86400000000
                    = sec * 1000000 + us)%Z).
    { rewrite Hm. symmetry. apply (Z.mod_unique_pos _ _ d (sec * 1000000 + us));
        lia. }
    assert (Hsec : ((sec * 1000000 + us) / 1000000 = sec)%Z).
    { symmetry. apply (Z.div_unique_pos _ _ sec us); lia. }
    assert (Hus : ((us + (sec + d * 24 * 3600) * 1000000) mod 1000000 = us)%Z).
    { symmetry.
      apply (Z.mod_unique_pos _ _ (sec + d * 24 * 3600) us); lia. }
    split.
    + rewrite Hd, Hmod, Hsec, Hus. reflexivity.
    + lia.
Qed.

(** ** Floats: rounding to nearest *)













Lemma F2Q_scale m e : (F2Q m e == inject_Z m * pow2 e)%Q.
Proof. reflexivity. Qed.













(** ** ts2dt and dt2ts: the round trip *)








Example ts2dt_zero :
  ts2dt ties_away_from_zero (F_fin 0 0) = Ok EPOCH /\
  ts2dt ties_to_even (F_fin 0 0) = Ok EPOCH.
Proof. split; vm_compute; reflexivity. Qed.

Example dt2ts_one_and_a_half :
  dt2ts {| instant := 1500000; aware := true |}
  = Ok (F_fin 6755399441055744 (-52)) /\
  (F2Q 6755399441055744 (-52) == 3 # 2)%Q.
Proof. split; vm_compute; reflexivity. Qed.

Example dt2ts_naive_raises :
  dt2ts {| instant := 1500000; aware := false |} = Err TypeError.
Proof. reflexivity. Qed.


(** ** The state of the module: what each call changes *)

Section ModuleStateFacts.

Context {Base Req Dist V Val Exc : Type}.
Variable urlparse : string -> ParseResult.
Variable super_locate_m : nat -> Req -> bool -> M (Base := Base) (option Dist).

(** [score_url] reads the field and changes nothing. *)
Lemma score_url_m_spec (self : nat) (url : string) (w : world (Base := Base)) :
  score_url_m urlparse self url w
  = (score_url urlparse (objects w self) url, w).
Proof. reflexivity. Qed.

Lemma world_eta (w : world (Base := Base)) : World (objects w) (LOG w) = w.
Proof. destruct w. reflexivity. Qed.

(** The monadic loop of [getdefaults] returns the value of the loop above
    and appends its log to [LOG]. *)
Lemma getdefaults_loop_m_spec (settings : gmap string V) (canonical : string)
    (keys : list string) (default : V) (w : world (Base := Base)) :
  getdefaults_loop_m settings canonical keys default w
  = (fst (getdefaults_loop settings canonical keys default),
     World (objects w)
       (LOG w ++ snd (getdefaults_loop settings canonical keys default))).
Proof.
  induction keys as [|key keys IH]; simpl.
  - unfold ret. rewrite app_nil_r, world_eta. reflexivity.
  - destruct (settings !! key) as [v|]; [|exact IH].
    unfold bind. case_bool_decide; simpl.
    + reflexivity.
    + unfold ret. rewrite app_nil_r, world_eta. reflexivity.
Qed.

Lemma getdefaults_m_spec (settings : gmap string V) (keys : list string)
    (default : V) (w : world (Base := Base)) :
  getdefaults_m settings keys default w
  = match getdefaults settings keys default with
    | Ok (v, log) => (Ok v, World (objects w) (LOG w ++ log))
    | Err e => (Err e, w)
    end.
Proof.
  unfold getdefaults_m, getdefaults.
  destruct (3 <=? List.length keys + 1)%nat; [|reflexivity].
  destruct keys as [|canonical keys']; [reflexivity|].
  unfold bind. rewrite getdefaults_loop_m_spec.
  destruct (getdefaults_loop settings canonical (canonical :: keys') default).
  reflexivity.
Qed.

(** The state [retry] leaves is the state after some number of
    invocations of the target, at most [iters]. *)
Lemma retry_loop_states (exceptions : Exc -> bool)
    (fn : world (Base := Base) -> outcome (Exc := Exc) Val * world) tries :
  forall (iters : nat) (n : Z) (w : world),
  exists m, (m <= iters)%nat /\
    snd (retry_loop exceptions fn tries iters n w) = state_before fn m w.
Proof.
  induction iters as [|iters IH]; intros n w; cbn [retry_loop].
  - exists 0%nat. split; [lia|reflexivity].
  - assert (Hone : exists m, (m <= S iters)%nat /\
                     snd (fn w) = state_before fn m w).
    { exists 1%nat. split; [lia|reflexivity]. }
    destruct (fn w) as [[v|e] w'] eqn:Hfn; cbn [snd] in *; [exact Hone|].
    destruct (exceptions e); [|exact Hone].
    destruct (n =? tries - 1)%Z; [exact Hone|].
    destruct (IH (n + 1)%Z w') as (m & Hm & Heq).
    exists (S m). split; [lia|]. rewrite Heq.
    replace w' with (snd (fn w)) by (rewrite Hfn; reflexivity).
    apply state_before_shift.
Qed.

End ModuleStateFacts.

(** What is assumed of the method of the superclass: it writes nothing to
    the logger of this module, touches no object but the locator it is
    called on, and does not assign [prefer_wheel], an attribute it does
    not know. *)
Definition super_frame {Base Req Dist : Type}
    (super_locate_m : nat -> Req -> bool -> M (Base := Base) (option Dist))
    : Prop :=
  forall self requirement prereleases (w : world (Base := Base)),
    LOG (snd (super_locate_m self requirement prereleases w)) = LOG w /\
    (forall l, l <> self ->
       objects (snd (super_locate_m self requirement prereleases w)) l
       = objects w l) /\
    prefer_wheel
      (objects (snd (super_locate_m self requirement prereleases w)) self)
    = prefer_wheel (objects w self).

(** A superclass method that works on the superclass state of its locator
    only, as [locate] above takes it, seen as a computation on the whole
    state. *)
Definition lift_super_locate {Base Req Dist : Type}
    (urlparse : string -> ParseResult)
    (super_locate :
       (string -> score) -> Base -> Req -> bool -> option Dist * Base)
    (self : nat) (requirement : Req) (prereleases : bool)
    : M (Base := Base) (option Dist) :=
  fun w =>
    let obj := objects w self in
    let '(found, b) :=
      super_locate (score_url urlparse obj) (base obj)
        requirement prereleases in
    (found,
     World (fun l => if Nat.eqb l self
                     then {| prefer_wheel := prefer_wheel obj; base := b |}
                     else objects w l)
           (LOG w)).

Lemma lift_super_locate_frame {Base Req Dist : Type}
    (urlparse : string -> ParseResult)
    (super_locate :
       (string -> score) -> Base -> Req -> bool -> option Dist * Base) :
  super_frame (lift_super_locate urlparse super_locate).
Proof.
  intros self requirement prereleases w. unfold lift_super_locate.
  destruct (super_locate (score_url urlparse (objects w self))
              (base (objects w self)) requirement prereleases)
    as [found b].
  cbn [snd LOG objects]. split; [reflexivity|]. split.
  - intros l Hl. destruct (Nat.eqb_spec l self); [contradiction|reflexivity].
  - rewrite Nat.eqb_refl. reflexivity.
Qed.

(** On such a superclass method, [locate] in the state monad returns what
    [locate] above returns and leaves the locator it gives. *)
Lemma locate_m_refines {Base Req Dist : Type}
    (urlparse : string -> ParseResult)
    (super_locate :
       (string -> score) -> Base -> Req -> bool -> option Dist * Base)
    (self : nat) (requirement : Req) (prereleases wheel : bool)
    (w : world (Base := Base)) :
  fst (locate_m (lift_super_locate urlparse super_locate)
         self requirement prereleases wheel w)
  = fst (locate urlparse super_locate (objects w self)
           requirement prereleases wheel) /\
  objects (snd (locate_m (lift_super_locate urlparse super_locate)
                  self requirement prereleases wheel w)) self
  = snd (locate urlparse super_locate (objects w self)
           requirement prereleases wheel).
Proof.
  unfold locate_m, bind, set_prefer_wheel, lift_super_locate, locate.
  cbn [objects LOG]. rewrite Nat.eqb_refl. cbn [base prefer_wheel].
  destruct (super_locate
              (score_url urlparse
                 {| prefer_wheel := wheel; base := base (objects w self) |})
              (base (objects w self)) requirement prereleases)
    as [found b].
  cbn [fst snd objects]. rewrite Nat.eqb_refl. split; reflexivity.
Qed.

(** C6 (amended): the calls of the module leave every object that exists
    and the logger as they found them, with three exceptions.
    [getdefaults] appends to the module logger the warning it logs, at
    most one, and changes no object.  [BetterScrapingLocator.locate]
    assigns [wheel] to the [prefer_wheel] field of the locator it is
    called on, which is the value the field has after the call and the
    one [score_url] on that locator then reads; it changes no other
    locator.  The wrapper of [retry] leaves the state its target leaves
    after the invocations made, at most [tries].  [normalize_name],
    [parse_filename], [dt2ts], [ts2dt] and [score_url] change nothing. *)
Theorem module_state_frame {Base Req Dist V Val Exc : Type}
    (urlparse : string -> ParseResult)
    (super_locate_m : nat -> Req -> bool -> M (Base := Base) (option Dist))
    (c : call (Base := Base) (Req := Req) (V := V) (Val := Val) (Exc := Exc))
    (w : world (Base := Base)) :
  super_frame super_locate_m ->
  match c with
  | call_locate self requirement prereleases wheel =>
      LOG (run urlparse super_locate_m c w) = LOG w /\
      (forall l, l <> self ->
         objects (run urlparse super_locate_m c w) l = objects w l) /\
      prefer_wheel (objects (run urlparse super_locate_m c w) self) = wheel /\
      (forall url,
          fst (score_url_m urlparse self url (run urlparse super_locate_m c w))
          = score_url urlparse
              {| prefer_wheel := wheel;
                 base := base (objects (run urlparse super_locate_m c w) self) |}
              url)
  | call_getdefaults settings keys default =>
      objects (run urlparse super_locate_m c w) = objects w /\
      exists log,
        LOG (run urlparse super_locate_m c w) = (LOG w ++ log)%list /\
        (List.length log <= 1)%nat /\
        match getdefaults settings keys default with
        | Ok (_, logged) => log = logged
        | Err _ => log = []
        end
  | call_retry exceptions tries fn =>
      exists m, (m <= Z.to_nat tries)%nat /\
        run urlparse super_locate_m c w = state_before fn m w
  | call_score_url self url =>
      run urlparse super_locate_m c w = w /\
      fst (score_url_m urlparse self url w)
      = score_url urlparse (objects w self) url
  | _ => run urlparse super_locate_m c w = w
  end.
Proof.
  intros Hsuper. destruct c; cbn [run]; try reflexivity.
  - split; reflexivity.
  - unfold locate_m, bind, set_prefer_wheel.
    match goal with
    | |- context [super_locate_m ?s ?r ?p ?w0] =>
        destruct (Hsuper s r p w0) as (Hlog & Hothers & Hfield)
    end.
    cbn [LOG objects] in *.
    split; [exact Hlog|]. split.
    { intros l Hl. rewrite (Hothers l Hl).
      destruct (Nat.eqb_spec l self); [contradiction|reflexivity]. }
    assert (Hwheel :
      prefer_wheel
        (objects
           (snd (super_locate_m self requirement prereleases
                   (World
                      (fun l => if Nat.eqb l self
                                then {| prefer_wheel := wheel;
                                        base := base (objects w self) |}
                                else objects w l)
                      (LOG w)))) self) = wheel).
    { rewrite Hfield. rewrite Nat.eqb_refl. reflexivity. }
    split; [exact Hwheel|].
    intros url. rewrite score_url_m_spec. cbn [fst].
    unfold score_url. rewrite Hwheel. reflexivity.
  - rewrite getdefaults_m_spec.
    destruct (getdefaults settings keys default) as [[v log]|e] eqn:Hg;
      cbn [snd objects LOG].
    + split; [reflexivity|]. exists log. split; [reflexivity|].
      split; [|reflexivity].
      revert Hg. unfold getdefaults.
      destruct (3 <=? List.length keys + 1)%nat; [|discriminate].
      destruct keys as [|canonical keys']; [discriminate|].
      intros Hg.
      assert (Hloop : getdefaults_loop settings canonical
                        (canonical :: keys') default = (v, log))
        by congruence.
      destruct (getdefaults_loop_result _ _ _ _ _ _ Hloop)
        as [(_ & -> & _)|(k & _ & _ & [-> | ->])]; simpl; lia.
    + split; [reflexivity|]. exists []. rewrite app_nil_r.
      split; [reflexivity|]. split; [simpl; lia|reflexivity].
  - unfold retrying_wrapper. apply retry_loop_states.
Qed.

(** A superclass method that finds nothing and changes nothing. *)
Definition super_finds_nothing (self : nat) (requirement : string)
    (prereleases : bool) : M (Base := unit) (option string) :=
  ret None.

(** A world with fresh locators and an empty log. *)
Definition fresh_world : world (Base := unit) :=
  World (fun _ => new_locator tt) [].

Lemma module_state_frame_witness :
  super_frame super_finds_nothing /\
  prefer_wheel (objects fresh_world 0%nat) = true /\
  prefer_wheel
    (objects
       (run (V := string) (Val := unit) (Exc := unit)
          Urlparse.urlparse super_finds_nothing
          (call_locate 0%nat "foo" false false) fresh_world) 0%nat) = false /\
  exists log,
    LOG (run (Req := string) (Val := unit) (Exc := unit)
           Urlparse.urlparse super_finds_nothing
           (call_getdefaults {[ "old_key" := "v" ]}
              ["new_key"; "old_key"] "default") fresh_world)
    = (LOG fresh_world ++ log)%list /\
    List.length log = 1%nat.
Proof.
  assert (Hsuper : super_frame super_finds_nothing).
  { intros self requirement prereleases w. repeat split. }
  split; [exact Hsuper|]. split; [reflexivity|]. split.
  - exact (proj1 (proj2 (proj2
      (module_state_frame (V := string) (Val := unit) (Exc := unit)
         Urlparse.urlparse super_finds_nothing
         (call_locate 0%nat "foo" false false) fresh_world Hsuper)))).
  - destruct (proj2
      (module_state_frame (Req := string) (Val := unit) (Exc := unit)
         Urlparse.urlparse super_finds_nothing
         (call_getdefaults {[ "old_key" := "v" ]}
            ["new_key"; "old_key"] "default") fresh_world Hsuper))
      as (log & Hlog & _ & Hpure).
    exists log. split; [exact Hlog|].
    vm_compute in Hpure. rewrite Hpure. reflexivity.
Defined.
